(** * The watch / work-queue / worker loop of [utils/watch.go]

    A shallow embedding of the controller in [src/utils/watch.go]:
    the three informer callbacks built in [Watch], the worker step
    [processNextItem], the business logic [syncToStdout] and the retry
    policy [handleErr].  The Go code is stateful, so every function is
    written in a small state monad over the process state [World]; a
    failed type assertion is a [Panic], a [Get] on an empty queue is
    [Blocked].  The work queue and the key functions belong to
    client-go; they are modelled after the library. *)

From Stdlib Require Import Ascii String.
From stdpp Require Import base gmap strings list.

#[local] Set Warnings "-clear-no-such-hyp".

(** ** Go values *)

(** A Go [error] is identified with the text of its [Error()] method. *)
Definition error : Type := string.

(** The line feed written as [\n] in Go string literals. *)
Definition LF : string := String (ascii_of_nat 10) EmptyString.

(** The fields of [k8s.io/api/core/v1.Event] that [watch.go] reads. *)
Module v1.
Record EventSource : Type := { Component : string; Host : string }.

Record Event : Type := {
  Name : string;        (* ObjectMeta.Name *)
  Namespace : string;   (* ObjectMeta.Namespace *)
  Kind : string;        (* TypeMeta.Kind *)
  Reason : string;
  Message : string;
  Source : EventSource
}.

(** [reflect.DeepEqual] on two [EventSource] structs: field by field. *)
Definition EventSource_DeepEqual (a b : EventSource) : bool :=
  String.eqb (Component a) (Component b) && String.eqb (Host a) (Host b).
End v1.

(** A value of Go type [interface{}], by dynamic type.  The informer of
    [Watch] hands the callbacks a [*v1.Event] or, for a delete it only
    learnt from a re-list, a [cache.DeletedFinalStateUnknown]. *)
Inductive obj : Type :=
| ObjEvent (e : v1.Event)                                (* [*v1.Event] *)
| ObjDeletedFinalStateUnknown (Key : string) (Obj : obj)  (* a tombstone *)
| ObjExplicitKey (k : string)                             (* [cache.ExplicitKey] *)
| ObjOther.                                (* any type without object metadata *)

(** [type Event struct { Type string; Obj *v1.Event; Key string }] *)
Record Event : Type := {
  Type_ : string;
  Obj : option v1.Event;
  Key : string
}.

Definition CreateEvent : string := "CREATE".
Definition UpdateEvent : string := "UPDATE".
Definition DeleteEvent : string := "DELETE".

(** A call of a printf-like function: the format and its arguments. *)
Record fmtcall : Type := Fmt { format : string; args : list string }.

(** ** The work queue *)

(** Modelled from the spec: the rate limited work queue of section 4.3,
    which is the [workqueue] package of client-go and not part of the
    repository.  [queue], [dirty] and [processing] are the fields of
    the library's queue; [failures] is the per-item counter of its item
    rate limiter; [waiting] holds the items of [AddAfter] whose delay
    has not elapsed.  The length of a delay depends on the wall clock
    and is not modelled; it is always positive, so a rate limited item
    always passes through [waiting]. *)
Module workqueue.

Record Queue : Type := mkQueue {
  queue : list string;
  dirty : gset string;
  processing : gset string;
  shuttingDown : bool;
  failures : gmap string nat;
  waiting : gset string
}.

(** [workqueue.NewRateLimitingQueue(workqueue.DefaultControllerRateLimiter())] *)
Definition NewRateLimitingQueue : Queue :=
  mkQueue [] ∅ ∅ false ∅ ∅.

Definition set_queue (l : list string) (q : Queue) : Queue :=
  mkQueue l (dirty q) (processing q) (shuttingDown q) (failures q) (waiting q).
Definition set_dirty (s : gset string) (q : Queue) : Queue :=
  mkQueue (queue q) s (processing q) (shuttingDown q) (failures q) (waiting q).
Definition set_processing (s : gset string) (q : Queue) : Queue :=
  mkQueue (queue q) (dirty q) s (shuttingDown q) (failures q) (waiting q).
Definition set_failures (m : gmap string nat) (q : Queue) : Queue :=
  mkQueue (queue q) (dirty q) (processing q) (shuttingDown q) m (waiting q).
Definition set_waiting (s : gset string) (q : Queue) : Queue :=
  mkQueue (queue q) (dirty q) (processing q) (shuttingDown q) (failures q) s.

(** [Add]: a no-op while shutting down or when the item is already
    dirty; an item being processed is only marked dirty. *)
Definition Add (item : string) (q : Queue) : Queue :=
  if shuttingDown q then q
  else if decide (item ∈ dirty q) then q
  else
    let q1 := set_dirty ({[item]} ∪ dirty q) q in
    if decide (item ∈ processing q1) then q1
    else set_queue (queue q1 ++ [item]) q1.

(** The three outcomes of [Get]: it waits on an empty queue, reports
    the shutdown, or hands out the head of the queue. *)
Inductive GetResult : Type :=
| GetWaits
| GetShutdown
| GetItem (item : string) (q : Queue).

Definition Get (q : Queue) : GetResult :=
  match queue q with
  | [] => if shuttingDown q then GetShutdown else GetWaits
  | item :: rest =>
      GetItem item
        (set_dirty (dirty q ∖ {[item]})
           (set_processing ({[item]} ∪ processing q)
              (set_queue rest q)))
  end.

(** [Done]: the item leaves [processing]; if it was re-added meanwhile
    it goes back to the end of the queue. *)
Definition Done (item : string) (q : Queue) : Queue :=
  let q1 := set_processing (processing q ∖ {[item]}) q in
  if decide (item ∈ dirty q1) then set_queue (queue q1 ++ [item]) q1
  else q1.

Definition ShutDown (q : Queue) : Queue :=
  mkQueue (queue q) (dirty q) (processing q) true (failures q) (waiting q).

(** The item rate limiter: [NumRequeues] reads the failure counter, a
    missing entry counting as 0; [When] increments it; [Forget]
    deletes it. *)
Definition NumRequeues (item : string) (q : Queue) : nat :=
  default 0 (failures q !! item).

Definition When (item : string) (q : Queue) : Queue :=
  set_failures (<[item := S (NumRequeues item q)]> (failures q)) q.

Definition Forget (item : string) (q : Queue) : Queue :=
  set_failures (delete item (failures q)) q.

(** [AddAfter] with a positive delay. *)
Definition AddAfter (item : string) (q : Queue) : Queue :=
  if shuttingDown q then q
  else set_waiting ({[item]} ∪ waiting q) q.

(** [AddRateLimited(item)] is [AddAfter(item, rateLimiter.When(item))]. *)
Definition AddRateLimited (item : string) (q : Queue) : Queue :=
  AddAfter item (When item q).

(** The delay of a waiting item elapses: the queue's timer loop
    removes it from [waiting] and calls [Add]. *)
Definition ready (item : string) (q : Queue) : Queue :=
  if decide (item ∈ waiting q)
  then Add item (set_waiting (waiting q ∖ {[item]}) q)
  else q.

End workqueue.

(** ** The informer cache *)

(** Modelled from the spec: the Identity Key of section 3 (namespace and
    name, or the key kept in a deletion tombstone) as the [cache]
    package of client-go computes it; the package is not part of the
    repository.  A Go result [(string, error)] is a pair. *)
Module cache.

(** The key of an object with metadata: [namespace/name], or the bare
    name when the namespace is empty. *)
Definition MetaNamespaceKeyFunc (o : obj) : string * option error :=
  match o with
  | ObjExplicitKey k => (k, None)
  | ObjEvent e =>
      if Nat.ltb 0 (String.length (v1.Namespace e))
      then (v1.Namespace e +:+ "/" +:+ v1.Name e, None)
      else (v1.Name e, None)
  | _ =>
      (EmptyString,
       Some "object has no meta: object does not implement the Object interfaces")
  end.

(** A tombstone carries the key the object had in the cache. *)
Definition DeletionHandlingMetaNamespaceKeyFunc (o : obj)
  : string * option error :=
  match o with
  | ObjDeletedFinalStateUnknown k _ => (k, None)
  | _ => MetaNamespaceKeyFunc o
  end.

(** [Indexer.GetByKey(key)] returns [(item, exists, err)]; a [nil]
    item is [None].  [cache.Indexer] is an interface: the controller
    is given some implementation of it. *)
Definition Indexer : Type := string -> option obj * bool * option error.

End cache.

(** ** The process state *)

(** [c.f], the file opened by [Watch].  [fault] is the error every
    write to the descriptor fails with, if any. *)
Record File : Type := mkFile { contents : string; fault : option error }.

(** [io.WriteString(f, s)]: the error of the write, and the file after
    it.  A failed write leaves the file as it was. *)
Definition WriteString (f : File) (s : string) : option error * File :=
  match fault f with
  | Some e => (Some e, f)
  | None => (None, mkFile (contents f +:+ s) None)
  end.

Inductive severity : Type := INFO | ERROR.

Record World : Type := mkWorld {
  c_queue : workqueue.Queue;           (* [c.queue], the [queue] of [Watch] *)
  c_indexer : cache.Indexer;           (* [c.indexer] *)
  c_f : File;                          (* [c.f] *)
  stdout : list fmtcall;               (* calls of [fmt.Printf], oldest first *)
  klog : list (severity * fmtcall);    (* calls of [klog.Infof], [klog.Errorf] *)
  handled : list error;                (* errors given to [runtime.HandleError] *)
  newEvent : Event;                    (* [var newEvent Event] of [Watch] *)
  err : option error                   (* [err] of [Watch], shared by the callbacks *)
}.

Definition with_queue (f : workqueue.Queue -> workqueue.Queue) (w : World) : World :=
  mkWorld (f (c_queue w)) (c_indexer w) (c_f w) (stdout w) (klog w)
          (handled w) (newEvent w) (err w).
Definition with_f (f : File) (w : World) : World :=
  mkWorld (c_queue w) (c_indexer w) f (stdout w) (klog w)
          (handled w) (newEvent w) (err w).
Definition with_stdout (l : list fmtcall) (w : World) : World :=
  mkWorld (c_queue w) (c_indexer w) (c_f w) l (klog w)
          (handled w) (newEvent w) (err w).
Definition with_klog (l : list (severity * fmtcall)) (w : World) : World :=
  mkWorld (c_queue w) (c_indexer w) (c_f w) (stdout w) l
          (handled w) (newEvent w) (err w).
Definition with_handled (l : list error) (w : World) : World :=
  mkWorld (c_queue w) (c_indexer w) (c_f w) (stdout w) (klog w)
          l (newEvent w) (err w).
Definition with_newEvent (e : Event) (w : World) : World :=
  mkWorld (c_queue w) (c_indexer w) (c_f w) (stdout w) (klog w)
          (handled w) e (err w).
Definition with_err (e : option error) (w : World) : World :=
  mkWorld (c_queue w) (c_indexer w) (c_f w) (stdout w) (klog w)
          (handled w) (newEvent w) e.

(** ** The monad of the controller code *)

Inductive Outcome (A : Type) : Type :=
| Ret (a : A) (w : World)   (* the call returns [a] *)
| Blocked                   (* the call waits in [queue.Get] *)
| Panic.                    (* a run-time panic *)
Arguments Ret {A} a w.
Arguments Blocked {A}.
Arguments Panic {A}.

Definition M (A : Type) : Type := World -> Outcome A.

Definition ret {A} (a : A) : M A := fun w => Ret a w.

Definition bind {A B} (m : M A) (k : A -> M B) : M B :=
  fun w =>
    match m w with
    | Ret a w' => k a w'
    | Blocked => Blocked
    | Panic => Panic
    end.

Notation "x <- m ;; k" := (bind m (fun x => k))
  (at level 100, m at next level, right associativity).
Notation "m ;; k" := (bind m (fun _ => k))
  (at level 100, right associativity).

Definition get : M World := fun w => Ret w w.
Definition modify (f : World -> World) : M unit := fun w => Ret tt (f w).
Definition panic {A} : M A := fun _ => Panic.

(** The type assertion [x.( *v1.Event )] without the comma-ok form. *)
Definition assert_Event (x : option obj) : M v1.Event :=
  match x with
  | Some (ObjEvent e) => ret e
  | _ => panic
  end.

Definition fmt_Printf (fmt : string) (a : list string) : M unit :=
  modify (fun w => with_stdout (stdout w ++ [Fmt fmt a]) w).
Definition klog_Errorf (fmt : string) (a : list string) : M unit :=
  modify (fun w => with_klog (klog w ++ [(ERROR, Fmt fmt a)]) w).
Definition klog_Infof (fmt : string) (a : list string) : M unit :=
  modify (fun w => with_klog (klog w ++ [(INFO, Fmt fmt a)]) w).
Definition runtime_HandleError (e : error) : M unit :=
  modify (fun w => with_handled (handled w ++ [e]) w).

Definition io_WriteString (s : string) : M (option error) :=
  fun w => let (e, f) := WriteString (c_f w) s in Ret e (with_f f w).

Definition queue_call (f : workqueue.Queue -> workqueue.Queue) : M unit :=
  modify (with_queue f).

(** [c.queue.Get()]: [None] is the [quit] flag. *)
Definition queue_Get : M (option string) :=
  fun w =>
    match workqueue.Get (c_queue w) with
    | workqueue.GetWaits => Blocked
    | workqueue.GetShutdown => Ret None w
    | workqueue.GetItem item q => Ret (Some item) (with_queue (fun _ => q) w)
    end.

Definition queue_NumRequeues (key : string) : M nat :=
  fun w => Ret (workqueue.NumRequeues key (c_queue w)) w.

(** ** The controller *)

(** [fmt.Sprintf("%s: %s/%s/%s/%s \n", evt.Name, evt.Namespace, evt.Kind,
    evt.Name, evt.Message)] *)
Definition Sprintf_msg (evt : v1.Event) : string :=
  v1.Name evt +:+ ": " +:+ v1.Namespace evt +:+ "/" +:+ v1.Kind evt +:+ "/"
  +:+ v1.Name evt +:+ "/" +:+ v1.Message evt +:+ " " +:+ LF.

Definition syncToStdout (key : string) : M (option error) :=
  w <- get ;;
  let '(item, exists_, err) := c_indexer w key in
  match err with
  | Some e =>
      klog_Errorf "Fetching object with key %s from store failed with %v" [key; e] ;;
      ret (Some e)
  | None =>
      (if negb exists_ then
         fmt_Printf ("Pod %s does not exist anymore" +:+ LF) [key]
       else
         evt <- assert_Event item ;;
         let msg := Sprintf_msg evt in
         fmt_Printf msg [] ;;
         err <- io_WriteString msg ;;
         match err with
         | Some e => fmt_Printf "write file error %s" [e]
         | None => ret tt
         end) ;;
      ret None
  end.

Definition handleErr (err : option error) (key : string) : M unit :=
  match err with
  | None => queue_call (workqueue.Forget key)
  | Some e =>
      n <- queue_NumRequeues key ;;
      if Nat.ltb n 5 then
        klog_Infof "Error syncing pod %v: %v" [key; e] ;;
        queue_call (workqueue.AddRateLimited key)
      else
        queue_call (workqueue.Forget key) ;;
        runtime_HandleError e ;;
        klog_Infof "Dropping pod %q out of the queue: %v" [key; e]
  end.

(** [defer c.queue.Done(newEvent)] runs when the function returns. *)
Definition processNextItem : M bool :=
  r <- queue_Get ;;
  match r with
  | None => ret false
  | Some newEvent =>
      err <- syncToStdout newEvent ;;
      handleErr err newEvent ;;
      queue_call (workqueue.Done newEvent) ;;
      ret true
  end.

(** ** The callbacks registered by [Watch]

    The callbacks are closures over [queue], [newEvent] and [err].  The
    two key functions come from the [cache] package; the callbacks are
    written over any functions of their type, and [Watch] passes the
    ones of the library. *)

Definition set_Obj (e : v1.Event) : M unit :=
  modify (fun w => with_newEvent
    {| Type_ := Type_ (newEvent w); Obj := Some e; Key := Key (newEvent w) |} w).
Definition set_Type (t : string) : M unit :=
  modify (fun w => with_newEvent
    {| Type_ := t; Obj := Obj (newEvent w); Key := Key (newEvent w) |} w).
Definition set_Key (k : string) : M unit :=
  modify (fun w => with_newEvent
    {| Type_ := Type_ (newEvent w); Obj := Obj (newEvent w); Key := k |} w).
Definition set_err (e : option error) : M unit := modify (with_err e).

(** [if err == nil { queue.Add(newEvent.Key) }] *)
Definition add_if_no_err : M unit :=
  w <- get ;;
  match err w with
  | None => queue_call (workqueue.Add (Key (newEvent w)))
  | Some _ => ret tt
  end.

(** [!reflect.DeepEqual(newEvt.Source, oldEvt.Source) &&
     oldEvt.Reason != newEvt.Reason] *)
Definition update_filter (oldEvt newEvt : v1.Event) : bool :=
  negb (v1.EventSource_DeepEqual (v1.Source newEvt) (v1.Source oldEvt))
  && negb (String.eqb (v1.Reason oldEvt) (v1.Reason newEvt)).

Section Callbacks.

Variable MetaNamespaceKeyFunc : obj -> string * option error.
Variable DeletionHandlingMetaNamespaceKeyFunc : obj -> string * option error.

Definition AddFunc (o : obj) : M unit :=
  evt <- assert_Event (Some o) ;;
  set_Obj evt ;;
  set_Type CreateEvent ;;
  let (k, e) := MetaNamespaceKeyFunc o in
  set_Key k ;; set_err e ;;
  add_if_no_err.

Definition UpdateFunc (old new : obj) : M unit :=
  oldEvt <- assert_Event (Some old) ;;
  newEvt <- assert_Event (Some new) ;;
  if update_filter oldEvt newEvt then
    set_Obj newEvt ;;
    set_Type UpdateEvent ;;
    let (k, e) := MetaNamespaceKeyFunc old in
    set_Key k ;; set_err e ;;
    add_if_no_err
  else ret tt.

Definition DeleteFunc (o : obj) : M unit :=
  evt <- assert_Event (Some o) ;;
  set_Obj evt ;;
  set_Type DeleteEvent ;;
  let (k, e) := DeletionHandlingMetaNamespaceKeyFunc o in
  set_Key k ;; set_err e ;;
  add_if_no_err.

End Callbacks.

(** The callbacks as [Watch] builds them. *)
Definition Watch_AddFunc : obj -> M unit :=
  AddFunc cache.MetaNamespaceKeyFunc.
Definition Watch_UpdateFunc : obj -> obj -> M unit :=
  UpdateFunc cache.MetaNamespaceKeyFunc.
Definition Watch_DeleteFunc : obj -> M unit :=
  DeleteFunc cache.DeletionHandlingMetaNamespaceKeyFunc.

(** ** One worker and the queue's timer

    [Watch] starts the controller with one worker.  [run] lets the
    worker take items while [Get] returns, and lets the delay of a
    waiting item elapse when [Get] would wait.  It returns the keys
    that [Get] delivered, oldest first.  It stops when the fuel is
    used up, when the worker has left its loop, or when nothing is
    queued and nothing is waiting. *)
Fixpoint run (fuel : nat) (w : World) : Outcome (list string) :=
  match fuel with
  | 0 => Ret [] w
  | S n =>
      match workqueue.Get (c_queue w) with
      | workqueue.GetItem item _ =>
          match processNextItem w with
          | Ret _ w' =>
              match run n w' with
              | Ret items w'' => Ret (item :: items) w''
              | o => o
              end
          | Blocked => Blocked
          | Panic => Panic
          end
      | workqueue.GetShutdown => Ret [] w
      | workqueue.GetWaits =>
          match elements (workqueue.waiting (c_queue w)) with
          | [] => Ret [] w
          | item :: _ => run n (with_queue (workqueue.ready item) w)
          end
      end
  end.

(** ** Vocabulary of the statements *)

(** Three states of a queue that holds at most the key [k]; [F] is the
    failure counter of every key. *)
Definition idle (F : gmap string nat) : workqueue.Queue :=
  workqueue.mkQueue [] ∅ ∅ false F ∅.
Definition pending (k : string) (F : gmap string nat) : workqueue.Queue :=
  workqueue.mkQueue [k] {[k]} ∅ false F ∅.
Definition backing_off (k : string) (F : gmap string nat) : workqueue.Queue :=
  workqueue.mkQueue [] ∅ ∅ false F {[k]}.

(** The two [klog] lines of a failed lookup that is retried, and of one
    that is dropped. *)
Definition fetch_failed (k : string) (e : error) : severity * fmtcall :=
  (ERROR, Fmt "Fetching object with key %s from store failed with %v" [k; e]).
Definition retry_lines (k : string) (e : error) : list (severity * fmtcall) :=
  [fetch_failed k e; (INFO, Fmt "Error syncing pod %v: %v" [k; e])].
Definition drop_lines (k : string) (e : error) : list (severity * fmtcall) :=
  [fetch_failed k e; (INFO, Fmt "Dropping pod %q out of the queue: %v" [k; e])].

Fixpoint repeat_lines {A} (n : nat) (l : list A) : list A :=
  match n with
  | 0 => []
  | S m => l ++ repeat_lines m l
  end.

(** [handleErr] called for one key with the results of successive
    syncs. *)
Fixpoint handleErrs (errs : list (option error)) (key : string) : M unit :=
  match errs with
  | [] => ret tt
  | e :: rest => handleErr e key ;; handleErrs rest key
  end.




(** The key of an event under the library's key function. *)
Definition key_of (evt : v1.Event) : string :=
  fst (cache.MetaNamespaceKeyFunc (ObjEvent evt)).

(** What a callback leaves in [newEvent] and [err] once the key
    function has returned [(k, e)]. *)
Definition recorded (t : string) (evt : v1.Event) (k : string)
    (e : option error) (w : World) : World :=
  with_err e (with_newEvent {| Type_ := t; Obj := Some evt; Key := k |} w).

(** ** Sample values *)

Module Sample.
Definition foo : v1.Event :=
  {| v1.Name := "foo"; v1.Namespace := "ns"; v1.Kind := "Event";
     v1.Reason := "Pulled"; v1.Message := "image pulled";
     v1.Source := {| v1.Component := "kubelet"; v1.Host := "node1" |} |}.

(** [foo] after an update of its source and reason. *)
Definition foo' : v1.Event :=
  {| v1.Name := "foo"; v1.Namespace := "ns"; v1.Kind := "Event";
     v1.Reason := "Started"; v1.Message := "container started";
     v1.Source := {| v1.Component := "kubelet"; v1.Host := "node2" |} |}.

(** An event with another name. *)
Definition bar : v1.Event :=
  {| v1.Name := "bar"; v1.Namespace := "ns"; v1.Kind := "Event";
     v1.Reason := "Started"; v1.Message := "container started";
     v1.Source := {| v1.Component := "kubelet"; v1.Host := "node2" |} |}.

(** A cache that holds [foo] under its key. *)
Definition holds_foo : cache.Indexer :=
  fun key =>
    if String.eqb key "ns/foo" then (Some (ObjEvent foo), true, None)
    else (None, false, None).

Definition empty_cache : cache.Indexer := fun _ => (None, false, None).

(** A cache whose every lookup fails. *)
Definition broken_cache : cache.Indexer :=
  fun _ => (None, false, Some "store unavailable").

(** The state [Watch] starts the controller in. *)
Definition start (i : cache.Indexer) (f : File) : World :=
  mkWorld workqueue.NewRateLimitingQueue i f [] [] []
    {| Type_ := EmptyString; Obj := None; Key := EmptyString |} None.

Definition new_file : File := mkFile EmptyString None.
Definition closed_file : File := mkFile EmptyString (Some "file already closed").

(** The same, with the key of [foo] delivered by the informer. *)
Definition foo_added (i : cache.Indexer) (f : File) : World :=
  with_queue (workqueue.Add "ns/foo") (start i f).

(** The queue of [foo_added] once [Get] has handed the key out. *)
Definition foo_taken : workqueue.Queue :=
  workqueue.mkQueue [] ∅ {["ns/foo"]} false ∅ ∅.

(** [start] with five failed syncs of the key on record. *)
Definition five_failures (i : cache.Indexer) (f : File) : World :=
  with_queue (workqueue.set_failures {["ns/foo" := 5]}) (start i f).

End Sample.

(** ** The rest of the program *)


(** What happens to a running controller, one call at a time: the
    informer calls one of the callbacks of [Watch] or refreshes the
    cache, the worker started by [Run] makes one pass of
    [processNextItem], the delay of a waiting key elapses, or [Run]
    returns and its deferred [ShutDown] runs. *)
Inductive event : Type :=
| OnAdd (o : obj)
| OnUpdate (old new : obj)
| OnDelete (o : obj)
| CacheIs (i : cache.Indexer)
| WorkerPass
| TimerFires (item : string)
| Stop.

Definition with_indexer (i : cache.Indexer) (w : World) : World :=
  mkWorld (c_queue w) i (c_f w) (stdout w) (klog w)
          (handled w) (newEvent w) (err w).

(** A worker that waits in [Get] changes nothing. *)
Definition perform (ev : event) : M unit :=
  match ev with
  | OnAdd o => Watch_AddFunc o
  | OnUpdate old new => Watch_UpdateFunc old new
  | OnDelete o => Watch_DeleteFunc o
  | CacheIs i => modify (with_indexer i)
  | WorkerPass =>
      fun w =>
        match processNextItem w with
        | Ret _ w' => Ret tt w'
        | Blocked => Ret tt w
        | Panic => Panic
        end
  | TimerFires item => queue_call (workqueue.ready item)
  | Stop => queue_call workqueue.ShutDown
  end.

Fixpoint perform_all (evs : list event) : M unit :=
  match evs with
  | [] => ret tt
  | ev :: rest => perform ev ;; perform_all rest
  end.



(** No key has more than 5 failed syncs on record. *)
Definition counters_bounded (q : workqueue.Queue) : Prop :=
  forall key, workqueue.NumRequeues key q <= 5.

(** The outputs of [w] are a prefix of those of [w']. *)
Definition outputs_extended (w w' : World) : Prop :=
  stdout w `prefix_of` stdout w' /\ klog w `prefix_of` klog w'
  /\ handled w `prefix_of` handled w'
  /\ exists s, contents (c_f w') = contents (c_f w) +:+ s.

(** The queue between two calls when one worker runs: nothing is
    marked as being processed, no key is queued twice, and every
    queued key is marked dirty. *)
Definition queue_at_rest (q : workqueue.Queue) : Prop :=
  workqueue.processing q = ∅ /\ NoDup (workqueue.queue q)
  /\ forall key, key ∈ workqueue.queue q -> key ∈ workqueue.dirty q.

(** ** More sample values *)

Module Scenario.
(** A cache that holds a newer snapshot of [Sample.foo] under its key. *)
Definition holds_foo' : cache.Indexer :=
  fun key =>
    if String.eqb key "ns/foo" then (Some (ObjEvent Sample.foo'), true, None)
    else (None, false, None).

(** An object is added while the cache cannot be read, its sync fails
    and is retried; an update arrives, the cache recovers, the key is
    synced; the object is deleted, the controller stops and the worker
    takes the last key. *)
Definition day : list event :=
  [ OnAdd (ObjEvent Sample.foo); WorkerPass; TimerFires "ns/foo"; WorkerPass;
    OnUpdate (ObjEvent Sample.foo) (ObjEvent Sample.foo');
    CacheIs holds_foo'; TimerFires "ns/foo"; WorkerPass; WorkerPass;
    CacheIs Sample.empty_cache; OnDelete (ObjEvent Sample.foo');
    Stop; WorkerPass; WorkerPass ].

Definition morning : World := Sample.start Sample.broken_cache Sample.new_file.

Definition evening : World :=
  match perform_all day morning with
  | Ret _ w => w
  | _ => morning
  end.

End Scenario.

(** * Properties *)

(** ** The work queue *)

Section QueueFacts.
Import workqueue.

Lemma mkQueue_eq l d p s F wt d' p' wt' :
  d = d' -> p = p' -> wt = wt' ->
  mkQueue l d p s F wt = mkQueue l d' p' s F wt'.
Proof. congruence. Qed.

Ltac queue_step :=
  first
    [ rewrite decide_False by set_solver
    | rewrite decide_True by set_solver
    | progress unfold ready, AddRateLimited, AddAfter, When, Forget, Done,
        Get, Add, NumRequeues, set_queue, set_dirty, set_processing,
        set_failures, set_waiting
    | progress cbn ].
Ltac queue_eq :=
  unfold idle, pending, backing_off; repeat queue_step;
  try apply (f_equal (GetItem _)); apply mkQueue_eq; set_solver.

Lemma Add_idle k F : Add k (idle F) = pending k F.
Proof. queue_eq. Qed.

Lemma Get_pending k F :
  Get (pending k F) = GetItem k (mkQueue [] ∅ {[k]} false F ∅).
Proof. queue_eq. Qed.

Lemma Done_AddRateLimited k F :
  Done k (AddRateLimited k (mkQueue [] ∅ {[k]} false F ∅))
  = backing_off k (<[k := S (default 0 (F !! k))]> F).
Proof. queue_eq. Qed.

Lemma Done_Forget k F :
  Done k (Forget k (mkQueue [] ∅ {[k]} false F ∅)) = idle (delete k F).
Proof. queue_eq. Qed.

Lemma ready_backing_off k F : ready k (backing_off k F) = pending k F.
Proof. queue_eq. Qed.

(** The counter as the rate limiter keeps it. *)
Lemma NumRequeues_Forget k q : NumRequeues k (Forget k q) = 0.
Proof. unfold NumRequeues, Forget; cbn. by rewrite lookup_delete_eq. Qed.

Lemma NumRequeues_AddRateLimited k q :
  NumRequeues k (AddRateLimited k q) = S (NumRequeues k q).
Proof.
  unfold AddRateLimited, AddAfter, When, NumRequeues; cbn.
  destruct (shuttingDown q); cbn; by rewrite lookup_insert_eq.
Qed.

Lemma NumRequeues_Done k k' q : NumRequeues k (Done k' q) = NumRequeues k q.
Proof. unfold Done, NumRequeues; cbn. by case_decide. Qed.

(** [Get] clears the dirty mark of the key it hands out, so [Done]
    does not queue the key again unless it was added in between. *)
Lemma Get_Done_not_requeued k q q' f :
  Get q = GetItem k q' ->
  dirty (f q') = dirty q' ->
  Done k (f q') = set_processing (processing (f q') ∖ {[k]}) (f q').
Proof.
  intros HG Hdirty. unfold Get in HG.
  destruct (queue q) as [|x rest] eqn:E; [by destruct (shuttingDown q)|].
  injection HG as -> <-. unfold Done; cbn.
  rewrite decide_False; [done|]. rewrite Hdirty; cbn. set_solver.
Qed.

(** [Get] takes the head of the queue and leaves the timers and the
    counters alone. *)
Lemma Get_keeps k q q' :
  Get q = GetItem k q' ->
  queue q = k :: queue q' /\ waiting q' = waiting q /\ failures q' = failures q.
Proof.
  unfold Get. destruct (queue q) as [|x rest]; [by destruct (shuttingDown q)|].
  by intros [= -> <-].
Qed.

(** A key that was handed out, forgotten and marked done: its counter
    is 0, it is gone from the queue and no timer was set for it. *)
Lemma Done_Forget_after_Get k q q' :
  Get q = GetItem k q' ->
  NumRequeues k (Done k (Forget k q')) = 0
  /\ queue q = k :: queue (Done k (Forget k q'))
  /\ waiting (Done k (Forget k q')) = waiting q.
Proof.
  intros HG. destruct (Get_keeps k q q' HG) as (Hq & Hw & _).
  rewrite NumRequeues_Done, NumRequeues_Forget.
  rewrite (Get_Done_not_requeued k q q' (Forget k)) by done.
  by rewrite Hq, <- Hw.
Qed.

(** On a queue that is not shutting down, [Add] marks the key dirty. *)
Lemma dirty_Add k q :
  shuttingDown q = false -> dirty (Add k q) = {[k]} ∪ dirty q.
Proof.
  intros H. unfold Add. rewrite H. repeat case_decide; cbn; set_solver.
Qed.
End QueueFacts.

Arguments workqueue.Add : simpl never.
Arguments workqueue.Done : simpl never.
Arguments workqueue.Forget : simpl never.
Arguments workqueue.AddRateLimited : simpl never.

(** ** The business logic and the retry policy, one call at a time *)

Section Steps.
Variables (w : World) (k : string).

Lemma syncToStdout_lookup_error item ex e :
  c_indexer w k = (item, ex, Some e) ->
  syncToStdout k w = Ret (Some e) (with_klog (klog w ++ [fetch_failed k e]) w).
Proof. intros H. unfold syncToStdout, bind, get. by rewrite H. Qed.

Lemma syncToStdout_absent item :
  c_indexer w k = (item, false, None) ->
  syncToStdout k w
  = Ret None
      (with_stdout
         (stdout w ++ [Fmt ("Pod %s does not exist anymore" +:+ LF) [k]]) w).
Proof. intros H. unfold syncToStdout, bind, get. by rewrite H. Qed.

Lemma syncToStdout_written evt :
  c_indexer w k = (Some (ObjEvent evt), true, None) ->
  fault (c_f w) = None ->
  syncToStdout k w
  = Ret None
      (with_f (mkFile (contents (c_f w) +:+ Sprintf_msg evt) None)
         (with_stdout (stdout w ++ [Fmt (Sprintf_msg evt) []]) w)).
Proof.
  intros H Hf. unfold syncToStdout, bind, get. rewrite H; cbn.
  unfold io_WriteString, WriteString; cbn. by rewrite Hf.
Qed.

Lemma syncToStdout_write_fails evt e :
  c_indexer w k = (Some (ObjEvent evt), true, None) ->
  fault (c_f w) = Some e ->
  syncToStdout k w
  = Ret None
      (with_stdout
         (stdout w ++ [Fmt (Sprintf_msg evt) []; Fmt "write file error %s" [e]])
         w).
Proof.
  intros H Hf. unfold syncToStdout, bind, get. rewrite H; cbn.
  unfold io_WriteString, WriteString; cbn. rewrite Hf; cbn.
  destruct w; cbn. by rewrite <- app_assoc.
Qed.

Lemma handleErr_nil :
  handleErr None k w = Ret tt (with_queue (workqueue.Forget k) w).
Proof. done. Qed.

Lemma handleErr_retry e :
  workqueue.NumRequeues k (c_queue w) < 5 ->
  handleErr (Some e) k w
  = Ret tt
      (with_queue (workqueue.AddRateLimited k)
         (with_klog (klog w ++ [(INFO, Fmt "Error syncing pod %v: %v" [k; e])]) w)).
Proof.
  intros H. unfold handleErr, bind, queue_NumRequeues.
  by rewrite (proj2 (Nat.ltb_lt _ _) H).
Qed.

Lemma handleErr_drop e :
  5 <= workqueue.NumRequeues k (c_queue w) ->
  handleErr (Some e) k w
  = Ret tt
      (with_klog
         (klog w ++ [(INFO, Fmt "Dropping pod %q out of the queue: %v" [k; e])])
         (with_handled (handled w ++ [e])
            (with_queue (workqueue.Forget k) w))).
Proof.
  intros H. unfold handleErr, bind, queue_NumRequeues.
  by rewrite (proj2 (Nat.ltb_ge _ _) H).
Qed.

(** [processNextItem] once [Get] has handed out [k]. *)
Lemma processNextItem_item q :
  workqueue.Get (c_queue w) = workqueue.GetItem k q ->
  processNextItem w
  = (err <- syncToStdout k ;;
     handleErr err k ;;
     queue_call (workqueue.Done k) ;;
     ret true) (with_queue (fun _ => q) w).
Proof. intros H. unfold processNextItem, bind at 1, queue_Get. by rewrite H. Qed.
End Steps.

(** ** A key whose sync always fails *)

Section AlwaysFailing.
Variables (k : string) (e : error).

Lemma processNextItem_retry w F item ex :
  c_queue w = pending k F ->
  c_indexer w k = (item, ex, Some e) ->
  default 0 (F !! k) < 5 ->
  processNextItem w
  = Ret true
      (with_queue (fun _ => backing_off k (<[k := S (default 0 (F !! k))]> F))
         (with_klog (klog w ++ retry_lines k e) w)).
Proof.
  intros Hq Hi Hn.
  rewrite (processNextItem_item w k (workqueue.mkQueue [] ∅ {[k]} false F ∅))
    by (rewrite Hq; apply Get_pending).
  unfold bind at 1.
  rewrite (syncToStdout_lookup_error _ k item ex e) by done.
  unfold bind at 1. rewrite handleErr_retry by done.
  rewrite <- Done_AddRateLimited. unfold retry_lines.
  change [?a; ?b] with ([a] ++ [b]). by rewrite app_assoc.
Qed.

Lemma processNextItem_drop w F item ex :
  c_queue w = pending k F ->
  c_indexer w k = (item, ex, Some e) ->
  5 <= default 0 (F !! k) ->
  processNextItem w
  = Ret true
      (with_queue (fun _ => idle (delete k F))
         (with_handled (handled w ++ [e])
            (with_klog (klog w ++ drop_lines k e) w))).
Proof.
  intros Hq Hi Hn.
  rewrite (processNextItem_item w k (workqueue.mkQueue [] ∅ {[k]} false F ∅))
    by (rewrite Hq; apply Get_pending).
  unfold bind at 1.
  rewrite (syncToStdout_lookup_error _ k item ex e) by done.
  unfold bind at 1. rewrite handleErr_drop by done.
  rewrite <- Done_Forget. unfold drop_lines.
  change [?a; ?b] with ([a] ++ [b]). by rewrite app_assoc.
Qed.

Lemma run_idle fuel w F : c_queue w = idle F -> run fuel w = Ret [] w.
Proof. intros H. destruct fuel; [done|]. cbn. by rewrite H. Qed.

Lemma run_pending j : forall w F item ex fuel,
  c_queue w = pending k F ->
  c_indexer w k = (item, ex, Some e) ->
  default 0 (F !! k) + j = 5 ->
  2 * j + 1 <= fuel ->
  run fuel w
  = Ret (replicate (S j) k)
      (with_queue (fun _ => idle (delete k F))
         (with_handled (handled w ++ [e])
            (with_klog
               (klog w ++ repeat_lines j (retry_lines k e) ++ drop_lines k e)
               w))).
Proof.
  induction j as [|j IH]; intros w F item ex fuel Hq Hi Hn Hfuel.
  - destruct fuel as [|fuel]; [lia|]. cbn [run].
    rewrite Hq, Get_pending.
    rewrite (processNextItem_drop w F item ex) by (done || lia).
    by rewrite (run_idle _ _ (delete k F)).
  - destruct fuel as [|[|fuel]]; [lia|lia|]. cbn [run].
    rewrite Hq, Get_pending.
    rewrite (processNextItem_retry w F item ex) by (done || lia).
    cbn [c_queue with_queue with_klog]. 
    change (workqueue.Get (backing_off k _)) with workqueue.GetWaits. cbn iota.
    unfold backing_off at 1. cbn [workqueue.waiting]. rewrite elements_singleton.
    rewrite (IH _ (<[k:=S (default 0 (F !! k))]> F) item ex).
    + rewrite delete_insert_eq. unfold with_queue, with_handled, with_klog; cbn.
      by rewrite <- app_assoc.
    + cbn. by rewrite ready_backing_off.
    + done.
    + rewrite lookup_insert_eq. cbn. lia.
    + lia.
Qed.
End AlwaysFailing.

(** C1.  [handleErr] on a failed sync requeues the key with
    [AddRateLimited] while [NumRequeues] is below 5 (the counter grows by
    one, nothing is reported); once [NumRequeues] has reached 5 it calls
    [Forget], reports the error to [runtime.HandleError] and does not
    requeue.  So a key whose lookup always fails, added to an idle queue
    with no failure history, is delivered exactly 6 times, whatever time
    the worker is given beyond that: 5 deliveries end in a retry, the
    sixth in the drop, the error is reported once and the queue is as
    it was before the key came in. *)
Theorem always_failing_key_delivered_six_times
    (k : string) (e : error) (w1 w2 w : World) (F : gmap string nat)
    (item : option obj) (ex : bool) (fuel : nat) :
  workqueue.NumRequeues k (c_queue w1) < 5 ->
  5 <= workqueue.NumRequeues k (c_queue w2) ->
  c_queue w = idle F -> F !! k = None ->
  c_indexer w k = (item, ex, Some e) ->
  11 <= fuel ->
  (handleErr (Some e) k w1
   = Ret tt
       (with_queue (workqueue.AddRateLimited k)
          (with_klog (klog w1 ++ [(INFO, Fmt "Error syncing pod %v: %v" [k; e])])
             w1))
   /\ workqueue.NumRequeues k (workqueue.AddRateLimited k (c_queue w1))
      = S (workqueue.NumRequeues k (c_queue w1))
   /\ workqueue.waiting (workqueue.AddRateLimited k (c_queue w1))
      = if workqueue.shuttingDown (c_queue w1) then workqueue.waiting (c_queue w1)
        else {[k]} ∪ workqueue.waiting (c_queue w1))
  /\ (handleErr (Some e) k w2
      = Ret tt
          (with_klog
             (klog w2 ++ [(INFO, Fmt "Dropping pod %q out of the queue: %v" [k; e])])
             (with_handled (handled w2 ++ [e])
                (with_queue (workqueue.Forget k) w2)))
      /\ workqueue.NumRequeues k (workqueue.Forget k (c_queue w2)) = 0
      /\ workqueue.queue (workqueue.Forget k (c_queue w2))
         = workqueue.queue (c_queue w2)
      /\ workqueue.waiting (workqueue.Forget k (c_queue w2))
         = workqueue.waiting (c_queue w2))
  /\ run fuel (with_queue (workqueue.Add k) w)
     = Ret (replicate 6 k)
         (with_handled (handled w ++ [e])
            (with_klog
               (klog w ++ repeat_lines 5 (retry_lines k e) ++ drop_lines k e)
               w)).
Proof.
  intros H1 H2 Hq HF Hi Hfuel. repeat split.
  - by apply handleErr_retry.
  - apply NumRequeues_AddRateLimited.
  - unfold workqueue.AddRateLimited, workqueue.AddAfter; cbn.
    by destruct (workqueue.shuttingDown (c_queue w1)).
  - by apply handleErr_drop.
  - apply NumRequeues_Forget.
  - rewrite (run_pending k e 5 _ F item ex).
    + rewrite (delete_id F k HF). destruct w; cbn in *. by subst.
    + cbn. rewrite Hq. apply Add_idle.
    + done.
    + by rewrite HF.
    + lia.
Qed.

Lemma always_failing_key_delivered_six_times_witness :
  run 11 (Sample.foo_added Sample.broken_cache Sample.new_file)
  = Ret (replicate 6 "ns/foo")
      (with_handled ["store unavailable"]
         (with_klog
            (repeat_lines 5 (retry_lines "ns/foo" "store unavailable")
             ++ drop_lines "ns/foo" "store unavailable")
            (Sample.start Sample.broken_cache Sample.new_file))).
Proof.
  apply (always_failing_key_delivered_six_times
           "ns/foo" "store unavailable"
           (Sample.start Sample.broken_cache Sample.new_file)
           (Sample.five_failures Sample.broken_cache Sample.new_file)
           (Sample.start Sample.broken_cache Sample.new_file)
           ∅ None false 11);
    [ vm_compute; lia | vm_compute; lia | reflexivity | reflexivity
    | reflexivity | lia ].
Defined.

(** ** One pass of the worker *)

Section Sync.
Variables (w : World) (k : string) (q : workqueue.Queue).
Hypothesis HGet : workqueue.Get (c_queue w) = workqueue.GetItem k q.

Lemma processNextItem_sync_nil w1 :
  syncToStdout k (with_queue (fun _ => q) w) = Ret None w1 ->
  processNextItem w
  = Ret true (with_queue (fun q1 => workqueue.Done k (workqueue.Forget k q1)) w1).
Proof.
  intros Hs. rewrite (processNextItem_item w k q HGet).
  unfold bind at 1. rewrite Hs. done.
Qed.

Lemma processNextItem_sync_error e w1 :
  syncToStdout k (with_queue (fun _ => q) w) = Ret (Some e) w1 ->
  processNextItem w
  = (handleErr (Some e) k ;; queue_call (workqueue.Done k) ;; ret true) w1.
Proof.
  intros Hs. rewrite (processNextItem_item w k q HGet).
  unfold bind at 1. by rewrite Hs.
Qed.
End Sync.

(** C3.  When the cache holds an object under the key and the write to
    the file fails, [syncToStdout] still returns [nil]: the file, [klog]
    and the error sink are as before, and the write error goes to
    standard output only.  [processNextItem] therefore takes the success
    path of [handleErr]: the key is forgotten (counter 0), it leaves the
    queue, and no timer is set that would bring it, and the write,
    back. *)
Theorem write_failure_is_logged_and_not_retried
    (w : World) (k : string) (q : workqueue.Queue) (evt : v1.Event) (e : error) :
  c_indexer w k = (Some (ObjEvent evt), true, None) ->
  fault (c_f w) = Some e ->
  workqueue.Get (c_queue w) = workqueue.GetItem k q ->
  syncToStdout k w
  = Ret None
      (with_stdout
         (stdout w ++ [Fmt (Sprintf_msg evt) []; Fmt "write file error %s" [e]]) w)
  /\ processNextItem w
     = Ret true
         (with_queue (fun _ => workqueue.Done k (workqueue.Forget k q))
            (with_stdout
               (stdout w ++ [Fmt (Sprintf_msg evt) []; Fmt "write file error %s" [e]])
               w))
  /\ workqueue.NumRequeues k (workqueue.Done k (workqueue.Forget k q)) = 0
  /\ workqueue.queue (c_queue w)
     = k :: workqueue.queue (workqueue.Done k (workqueue.Forget k q))
  /\ workqueue.waiting (workqueue.Done k (workqueue.Forget k q))
     = workqueue.waiting (c_queue w).
Proof.
  intros Hi Hf HG. split; [by apply syncToStdout_write_fails|].
  split; [|by apply Done_Forget_after_Get].
  erewrite processNextItem_sync_nil; [|done|].
  2: { by apply (syncToStdout_write_fails _ k evt e). }
  done.
Qed.

Lemma write_failure_is_logged_and_not_retried_witness :
  processNextItem (Sample.foo_added Sample.holds_foo Sample.closed_file)
  = Ret true
      (with_queue
         (fun _ => workqueue.Done "ns/foo" (workqueue.Forget "ns/foo" Sample.foo_taken))
         (with_stdout
            [Fmt (Sprintf_msg Sample.foo) [];
             Fmt "write file error %s" ["file already closed"]]
            (Sample.foo_added Sample.holds_foo Sample.closed_file))).
Proof.
  apply (write_failure_is_logged_and_not_retried
           (Sample.foo_added Sample.holds_foo Sample.closed_file)
           "ns/foo" Sample.foo_taken Sample.foo "file already closed");
    [reflexivity | reflexivity | vm_compute; reflexivity].
Defined.

(** C5.  When the lookup succeeds with [exists = false], [syncToStdout]
    prints the "does not exist anymore" message for the key, writes
    nothing to the file and returns [nil]; [processNextItem] then
    forgets the key: counter 0, gone from the queue, no timer set. *)
Theorem absent_key_is_a_final_deletion
    (w : World) (k : string) (q : workqueue.Queue) (item : option obj) :
  c_indexer w k = (item, false, None) ->
  workqueue.Get (c_queue w) = workqueue.GetItem k q ->
  syncToStdout k w
  = Ret None
      (with_stdout
         (stdout w ++ [Fmt ("Pod %s does not exist anymore" +:+ LF) [k]]) w)
  /\ processNextItem w
     = Ret true
         (with_queue (fun _ => workqueue.Done k (workqueue.Forget k q))
            (with_stdout
               (stdout w ++ [Fmt ("Pod %s does not exist anymore" +:+ LF) [k]]) w))
  /\ workqueue.NumRequeues k (workqueue.Done k (workqueue.Forget k q)) = 0
  /\ workqueue.queue (c_queue w)
     = k :: workqueue.queue (workqueue.Done k (workqueue.Forget k q))
  /\ workqueue.waiting (workqueue.Done k (workqueue.Forget k q))
     = workqueue.waiting (c_queue w).
Proof.
  intros Hi HG. split; [by apply (syncToStdout_absent _ _ item)|].
  split; [|by apply Done_Forget_after_Get].
  erewrite processNextItem_sync_nil; [|done|].
  2: { by apply (syncToStdout_absent _ k item). }
  done.
Qed.

Lemma absent_key_is_a_final_deletion_witness :
  processNextItem (Sample.foo_added Sample.empty_cache Sample.new_file)
  = Ret true
      (with_queue
         (fun _ => workqueue.Done "ns/foo" (workqueue.Forget "ns/foo" Sample.foo_taken))
         (with_stdout
            [Fmt ("Pod %s does not exist anymore" +:+ LF) ["ns/foo"]]
            (Sample.foo_added Sample.empty_cache Sample.new_file))).
Proof.
  apply (absent_key_is_a_final_deletion
           (Sample.foo_added Sample.empty_cache Sample.new_file)
           "ns/foo" Sample.foo_taken None);
    [reflexivity | vm_compute; reflexivity].
Defined.

(** C7.  When [GetByKey] returns an error, [syncToStdout] logs it and
    returns that same error, and [processNextItem] hands it to
    [handleErr] like any failed sync: below 5 requeues the key is
    requeued with [AddRateLimited], from 5 on it is forgotten and the
    error is reported. *)
Theorem lookup_error_is_a_sync_failure
    (w : World) (k : string) (q : workqueue.Queue) (item : option obj)
    (ex : bool) (e : error) :
  c_indexer w k = (item, ex, Some e) ->
  workqueue.Get (c_queue w) = workqueue.GetItem k q ->
  syncToStdout k w = Ret (Some e) (with_klog (klog w ++ [fetch_failed k e]) w)
  /\ processNextItem w
     = (handleErr (Some e) k ;; queue_call (workqueue.Done k) ;; ret true)
         (with_queue (fun _ => q) (with_klog (klog w ++ [fetch_failed k e]) w))
  /\ processNextItem w
     = Ret true
         (if Nat.ltb (workqueue.NumRequeues k (c_queue w)) 5 then
            with_queue (fun _ => workqueue.Done k (workqueue.AddRateLimited k q))
              (with_klog (klog w ++ retry_lines k e) w)
          else
            with_queue (fun _ => workqueue.Done k (workqueue.Forget k q))
              (with_handled (handled w ++ [e])
                 (with_klog (klog w ++ drop_lines k e) w))).
Proof.
  intros Hi HG.
  assert (processNextItem w
     = (handleErr (Some e) k ;; queue_call (workqueue.Done k) ;; ret true)
         (with_queue (fun _ => q) (with_klog (klog w ++ [fetch_failed k e]) w)))
    as Hp.
  { rewrite (processNextItem_sync_error w k q HG e
               (with_klog (klog w ++ [fetch_failed k e])
                  (with_queue (fun _ => q) w))); [done|].
    by rewrite (syncToStdout_lookup_error _ k item ex e). }
  split; [by apply (syncToStdout_lookup_error _ _ item ex)|]. split; [done|].
  rewrite Hp. unfold bind at 1.
  assert (workqueue.NumRequeues k q = workqueue.NumRequeues k (c_queue w)) as Hn.
  { unfold workqueue.NumRequeues. by destruct (Get_keeps _ _ _ HG) as (_ & _ & ->). }
  destruct (Nat.ltb_spec (workqueue.NumRequeues k (c_queue w)) 5) as [Hlt|Hge].
  - rewrite handleErr_retry by (cbn; lia). unfold retry_lines.
    change [?a; ?b] with ([a] ++ [b]). by rewrite app_assoc.
  - rewrite handleErr_drop by (cbn; lia). unfold drop_lines.
    change [?a; ?b] with ([a] ++ [b]). by rewrite app_assoc.
Qed.

Lemma lookup_error_is_a_sync_failure_witness :
  processNextItem (Sample.foo_added Sample.broken_cache Sample.new_file)
  = Ret true
      (with_queue
         (fun _ =>
            workqueue.Done "ns/foo"
              (workqueue.AddRateLimited "ns/foo" Sample.foo_taken))
         (with_klog (retry_lines "ns/foo" "store unavailable")
            (Sample.foo_added Sample.broken_cache Sample.new_file))).
Proof.
  apply (lookup_error_is_a_sync_failure
           (Sample.foo_added Sample.broken_cache Sample.new_file)
           "ns/foo" Sample.foo_taken None false "store unavailable");
    [reflexivity | vm_compute; reflexivity].
Defined.

(** ** Success after failures *)

Lemma handleErr_returns err k w : exists w', handleErr err k w = Ret tt w'.
Proof.
  destruct err as [e|]; [|by eexists].
  unfold handleErr, bind, queue_NumRequeues.
  destruct (Nat.ltb _ 5); by eexists.
Qed.

Lemma handleErrs_returns errs k : forall w, exists w', handleErrs errs k w = Ret tt w'.
Proof.
  induction errs as [|err errs IH]; intros w; [by eexists|].
  cbn [handleErrs]. unfold bind.
  destruct (handleErr_returns err k w) as [w1 ->]. apply IH.
Qed.

Lemma handleErrs_app l1 l2 k w w1 :
  handleErrs l1 k w = Ret tt w1 ->
  handleErrs (l1 ++ l2) k w = handleErrs l2 k w1.
Proof.
  revert w. induction l1 as [|err l1 IH]; intros w; cbn [handleErrs app].
  - by intros [= ->].
  - unfold bind. destruct (handleErr_returns err k w) as [w2 ->]. apply IH.
Qed.

Lemma handleErrs_below_ceiling k e n : forall w,
  workqueue.NumRequeues k (c_queue w) + n <= 5 ->
  exists w',
    handleErrs (replicate n (Some e)) k w = Ret tt w'
    /\ handled w' = handled w
    /\ workqueue.NumRequeues k (c_queue w') = workqueue.NumRequeues k (c_queue w) + n.
Proof.
  induction n as [|n IH]; intros w Hn.
  - exists w. by rewrite Nat.add_0_r.
  - cbn [handleErrs replicate]. unfold bind at 1. rewrite handleErr_retry by lia.
    destruct (IH (with_queue (workqueue.AddRateLimited k)
                (with_klog (klog w ++ [(INFO, Fmt "Error syncing pod %v: %v" [k; e])]) w)))
      as (w' & Hrun & Hh & Hc).
    { cbn. rewrite NumRequeues_AddRateLimited. lia. }
    exists w'. split; [done|]. split; [done|].
    rewrite Hc. cbn. rewrite NumRequeues_AddRateLimited. lia.
Qed.

(** C4.  On a [nil] result [handleErr] calls [Forget]: the counter of the
    key is 0 afterwards and the queue, the dirty marks and the timers
    are untouched, so nothing is requeued.  Hence, whatever number [m]
    of failures came before the success, up to 5 failures after it are
    all retried: none of them reports an error, and after [n] of them
    the counter is [n]. *)
Theorem success_resets_the_retry_counter
    (w : World) (k : string) (e : error) (m n : nat) :
  n <= 5 ->
  handleErr None k w = Ret tt (with_queue (workqueue.Forget k) w)
  /\ workqueue.NumRequeues k (workqueue.Forget k (c_queue w)) = 0
  /\ workqueue.queue (workqueue.Forget k (c_queue w)) = workqueue.queue (c_queue w)
  /\ workqueue.dirty (workqueue.Forget k (c_queue w)) = workqueue.dirty (c_queue w)
  /\ workqueue.waiting (workqueue.Forget k (c_queue w)) = workqueue.waiting (c_queue w)
  /\ exists w1 w',
       handleErrs (replicate m (Some e) ++ [None]) k w = Ret tt w1
       /\ handleErrs (replicate m (Some e) ++ [None] ++ replicate n (Some e)) k w
          = Ret tt w'
       /\ handled w' = handled w1
       /\ workqueue.NumRequeues k (c_queue w') = n.
Proof.
  intros Hn. split; [done|]. split; [apply NumRequeues_Forget|].
  do 3 (split; [done|]).
  destruct (handleErrs_returns (replicate m (Some e)) k w) as [w0 H0].
  destruct (handleErrs_below_ceiling k e n (with_queue (workqueue.Forget k) w0))
    as (w' & Hrun & Hh & Hc).
  { cbn. rewrite NumRequeues_Forget. lia. }
  exists (with_queue (workqueue.Forget k) w0), w'.
  rewrite !(handleErrs_app _ _ k w w0 H0). split; [done|].
  split; [exact Hrun|]. split; [done|].
  rewrite Hc. cbn. by rewrite NumRequeues_Forget.
Qed.

Lemma success_resets_the_retry_counter_witness :
  exists w1 w',
    handleErrs [Some "timeout"; Some "timeout"; None] "ns/foo"
      (Sample.start Sample.holds_foo Sample.new_file) = Ret tt w1
    /\ handleErrs [Some "timeout"; Some "timeout"; None; Some "timeout"; Some "timeout"]
         "ns/foo" (Sample.start Sample.holds_foo Sample.new_file) = Ret tt w'
    /\ handled w' = handled w1
    /\ workqueue.NumRequeues "ns/foo" (c_queue w') = 2.
Proof.
  apply (success_resets_the_retry_counter
           (Sample.start Sample.holds_foo Sample.new_file) "ns/foo" "timeout" 2 2).
  lia.
Defined.

(** ** The callbacks *)

Lemma MetaNamespaceKeyFunc_event evt :
  cache.MetaNamespaceKeyFunc (ObjEvent evt) = (key_of evt, None).
Proof.
  unfold key_of, cache.MetaNamespaceKeyFunc.
  by destruct (Nat.ltb 0 (String.length (v1.Namespace evt))).
Qed.




Section AnyKeyFunction.
Variables (keyFunc : obj -> string * option error).

Lemma AddFunc_event evt w :
  AddFunc keyFunc (ObjEvent evt) w
  = let (k, e) := keyFunc (ObjEvent evt) in
    let w1 := recorded CreateEvent evt k e w in
    Ret tt (if e is None then with_queue (workqueue.Add k) w1 else w1).
Proof.
  unfold AddFunc, bind; cbn. destruct (keyFunc (ObjEvent evt)) as [k [e|]]; done.
Qed.

Lemma DeleteFunc_event evt w :
  DeleteFunc keyFunc (ObjEvent evt) w
  = let (k, e) := keyFunc (ObjEvent evt) in
    let w1 := recorded DeleteEvent evt k e w in
    Ret tt (if e is None then with_queue (workqueue.Add k) w1 else w1).
Proof.
  unfold DeleteFunc, bind; cbn. destruct (keyFunc (ObjEvent evt)) as [k [e|]]; done.
Qed.

Lemma UpdateFunc_event oldEvt newEvt w :
  UpdateFunc keyFunc (ObjEvent oldEvt) (ObjEvent newEvt) w
  = if update_filter oldEvt newEvt then
      let (k, e) := keyFunc (ObjEvent oldEvt) in
      let w1 := recorded UpdateEvent newEvt k e w in
      Ret tt (if e is None then with_queue (workqueue.Add k) w1 else w1)
    else Ret tt w.
Proof.
  unfold UpdateFunc, bind; cbn. destruct (update_filter oldEvt newEvt); [|done].
  destruct (keyFunc (ObjEvent oldEvt)) as [k [e|]]; done.
Qed.
End AnyKeyFunction.



(** C9.  An update that passes the filter enqueues the key computed
    from the old object, while [newEvent.Obj] is the new object.  This
    is the key of the new object when the two keys are equal; when they
    differ, the old key becomes pending and the new key does not. *)
Theorem update_key_comes_from_old_object
    (oldEvt newEvt : v1.Event) (w : World) :
  update_filter oldEvt newEvt = true ->
  exists w',
    Watch_UpdateFunc (ObjEvent oldEvt) (ObjEvent newEvt) w = Ret tt w'
    /\ c_queue w' = workqueue.Add (key_of oldEvt) (c_queue w)
    /\ newEvent w' = {| Type_ := UpdateEvent; Obj := Some newEvt; Key := key_of oldEvt |}
    /\ (key_of newEvt = key_of oldEvt ->
        c_queue w' = workqueue.Add (key_of newEvt) (c_queue w))
    /\ (key_of newEvt <> key_of oldEvt ->
        workqueue.shuttingDown (c_queue w) = false ->
        key_of oldEvt ∈ workqueue.dirty (c_queue w')
        /\ (key_of newEvt ∉ workqueue.dirty (c_queue w) ->
            key_of newEvt ∉ workqueue.dirty (c_queue w'))).
Proof.
  intros Hf. unfold Watch_UpdateFunc.
  rewrite UpdateFunc_event, MetaNamespaceKeyFunc_event, Hf.
  eexists; split; [reflexivity|]. cbn. split_and!; try done.
  - by intros ->.
  - intros Hne Hsd. rewrite dirty_Add by done. set_solver.
Qed.

Lemma update_key_comes_from_old_object_witness :
  exists w',
    Watch_UpdateFunc (ObjEvent Sample.foo) (ObjEvent Sample.bar)
      (Sample.start Sample.holds_foo Sample.new_file) = Ret tt w'
    /\ "ns/foo" ∈ workqueue.dirty (c_queue w')
    /\ "ns/bar" ∉ workqueue.dirty (c_queue w').
Proof.
  destruct (update_key_comes_from_old_object Sample.foo Sample.bar
              (Sample.start Sample.holds_foo Sample.new_file) eq_refl)
    as (w' & Hrun & _ & _ & _ & Hkeys).
  exists w'. split; [exact Hrun|].
  destruct Hkeys as [Hold Hnew]; [vm_compute; discriminate | reflexivity |].
  split; [exact Hold|]. apply Hnew, not_elem_of_empty.
Defined.



(** C8.  The deletion-tolerant key function gives the key of a
    tombstone, but the delete callback asserts that its argument is a
    [*v1.Event] before it calls the key function: on a tombstone it
    panics and enqueues nothing.  On an event it enqueues the key of
    the event. *)
Theorem delete_of_a_tombstone_panics
    (k : string) (o : obj) (evt : v1.Event) (w : World) :
  cache.DeletionHandlingMetaNamespaceKeyFunc (ObjDeletedFinalStateUnknown k o)
  = (k, None)
  /\ Watch_DeleteFunc (ObjDeletedFinalStateUnknown k o) w = Panic
  /\ Watch_DeleteFunc (ObjEvent evt) w
     = Ret tt (with_queue (workqueue.Add (key_of evt))
                 (recorded DeleteEvent evt (key_of evt) None w)).
Proof.
  split; [done|]. split; [done|].
  unfold Watch_DeleteFunc. rewrite DeleteFunc_event.
  change (cache.DeletionHandlingMetaNamespaceKeyFunc (ObjEvent evt))
    with (cache.MetaNamespaceKeyFunc (ObjEvent evt)).
  by rewrite MetaNamespaceKeyFunc_event.
Qed.

(** ** The line written to the sink *)




(** * Further properties *)

(** ** What a sync does and what it leaves alone *)

Lemma string_append_assoc (a b c : string) : (a +:+ b) +:+ c = a +:+ (b +:+ c).
Proof.
  induction a as [|x a IH]; [done|].
  change (String x ((a +:+ b) +:+ c) = String x (a +:+ (b +:+ c))).
  by rewrite IH.
Qed.

Lemma string_append_nil_r (a : string) : a +:+ EmptyString = a.
Proof.
  induction a as [|x a IH]; [done|].
  change (String x (a +:+ EmptyString) = String x a). by rewrite IH.
Qed.

Lemma outputs_extended_refl w : outputs_extended w w.
Proof.
  repeat split; try done. exists EmptyString. by rewrite string_append_nil_r.
Qed.

Lemma outputs_extended_trans w1 w2 w3 :
  outputs_extended w1 w2 -> outputs_extended w2 w3 -> outputs_extended w1 w3.
Proof.
  intros (Ha & Hb & Hc & s & Hs) (Ha' & Hb' & Hc' & s' & Hs').
  repeat split; try (by etrans).
  exists (s +:+ s'). by rewrite Hs', Hs, string_append_assoc.
Qed.

(** The four ways [syncToStdout] can go, by the result of the lookup. *)
Lemma syncToStdout_cases k w :
  (exists item ex e,
     c_indexer w k = (item, ex, Some e)
     /\ syncToStdout k w
        = Ret (Some e) (with_klog (klog w ++ [fetch_failed k e]) w))
  \/ (exists item,
        c_indexer w k = (item, false, None)
        /\ syncToStdout k w
           = Ret None
               (with_stdout
                  (stdout w ++ [Fmt ("Pod %s does not exist anymore" +:+ LF) [k]])
                  w))
  \/ (exists evt out,
        c_indexer w k = (Some (ObjEvent evt), true, None)
        /\ syncToStdout k w
           = Ret None
               (with_f (snd (WriteString (c_f w) (Sprintf_msg evt)))
                  (with_stdout (stdout w ++ Fmt (Sprintf_msg evt) [] :: out) w)))
  \/ (exists item,
        c_indexer w k = (item, true, None)
        /\ (forall evt, item <> Some (ObjEvent evt))
        /\ syncToStdout k w = Panic).
Proof.
  destruct (c_indexer w k) as [[item ex] [e|]] eqn:Hi.
  - left. exists item, ex, e. split; [done|].
    by apply (syncToStdout_lookup_error _ _ item ex).
  - destruct ex.
    + assert ((exists evt, item = Some (ObjEvent evt))
              \/ (forall evt, item <> Some (ObjEvent evt))) as [[evt ->]|Hne].
      { destruct item as [[evt| | |]|]; eauto. }
      * right; right; left. destruct (fault (c_f w)) as [e|] eqn:Hf.
        -- exists evt, [Fmt "write file error %s" [e]]. split; [done|].
           rewrite (syncToStdout_write_fails _ _ evt e) by done.
           unfold WriteString. rewrite Hf. by destruct w.
        -- exists evt, []. split; [done|].
           rewrite (syncToStdout_written _ _ evt) by done.
           unfold WriteString. by rewrite Hf.
      * right; right; right. exists item. split; [done|]. split; [done|].
        unfold syncToStdout, bind, get. rewrite Hi.
        destruct item as [[evt| | |]|]; try done. by destruct (Hne evt).
    + right; left. exists item. split; [done|].
      by apply (syncToStdout_absent _ _ item).
Qed.


(** X2.  A sync that returns has not touched the queue, the cache, the
    error sink or the variables of the callbacks; the standard output,
    [klog] and the file have only grown.  A sync that returns [nil] has
    logged nothing to [klog]; one that returns an error has printed
    nothing and written nothing to the file. *)
Theorem syncToStdout_touches_only_the_outputs
    (k : string) (w w' : World) (r : option error) :
  syncToStdout k w = Ret r w' ->
  c_queue w' = c_queue w /\ c_indexer w' = c_indexer w
  /\ handled w' = handled w /\ newEvent w' = newEvent w /\ err w' = err w
  /\ fault (c_f w') = fault (c_f w)
  /\ outputs_extended w w'
  /\ (r = None -> klog w' = klog w)
  /\ (r <> None -> stdout w' = stdout w /\ c_f w' = c_f w).
Proof.
  destruct (syncToStdout_cases k w)
    as [(item & ex & e & _ & ->)|[(item & _ & ->)|[(evt & out & _ & ->)
       |(item & _ & _ & ->)]]]; [| | |done]; intros [= <- <-]; cbn.
  - split_and!; try done.
    unfold outputs_extended; cbn. split_and!; try done.
    + by apply prefix_app_r.
    + exists EmptyString. by rewrite string_append_nil_r.
  - split_and!; try done.
    unfold outputs_extended; cbn. split_and!; try done.
    + by apply prefix_app_r.
    + exists EmptyString. by rewrite string_append_nil_r.
  - unfold WriteString. destruct (fault (c_f w)) as [e|] eqn:Hf; cbn.
    + split_and!; try done.
      unfold outputs_extended; cbn. split_and!; try done.
      * by apply prefix_app_r.
      * exists EmptyString. by rewrite string_append_nil_r.
    + split_and!; try done.
      unfold outputs_extended; cbn. split_and!; try done.
      * by apply prefix_app_r.
      * by eexists.
Qed.

Lemma syncToStdout_touches_only_the_outputs_witness :
  c_queue
    (with_f (mkFile (Sprintf_msg Sample.foo) None)
       (with_stdout [Fmt (Sprintf_msg Sample.foo) []]
          (Sample.foo_added Sample.holds_foo Sample.new_file)))
  = c_queue (Sample.foo_added Sample.holds_foo Sample.new_file)
  /\ outputs_extended (Sample.foo_added Sample.holds_foo Sample.new_file)
       (with_f (mkFile (Sprintf_msg Sample.foo) None)
          (with_stdout [Fmt (Sprintf_msg Sample.foo) []]
             (Sample.foo_added Sample.holds_foo Sample.new_file))).
Proof.
  destruct (syncToStdout_touches_only_the_outputs "ns/foo"
              (Sample.foo_added Sample.holds_foo Sample.new_file)
              (with_f (mkFile (Sprintf_msg Sample.foo) None)
                 (with_stdout [Fmt (Sprintf_msg Sample.foo) []]
                    (Sample.foo_added Sample.holds_foo Sample.new_file)))
              None)
    as (Hq & _ & _ & _ & _ & _ & Ho & _); [reflexivity|].
  split; [exact Hq|exact Ho].
Defined.


(** ** What [handleErr] does and what it leaves alone *)

Lemma handleErr_cases err k w :
  (err = None /\ handleErr err k w = Ret tt (with_queue (workqueue.Forget k) w))
  \/ (exists e, err = Some e /\ workqueue.NumRequeues k (c_queue w) < 5
      /\ handleErr err k w
         = Ret tt
             (with_queue (workqueue.AddRateLimited k)
                (with_klog
                   (klog w ++ [(INFO, Fmt "Error syncing pod %v: %v" [k; e])]) w)))
  \/ (exists e, err = Some e /\ 5 <= workqueue.NumRequeues k (c_queue w)
      /\ handleErr err k w
         = Ret tt
             (with_klog
                (klog w ++ [(INFO, Fmt "Dropping pod %q out of the queue: %v" [k; e])])
                (with_handled (handled w ++ [e])
                   (with_queue (workqueue.Forget k) w)))).
Proof.
  destruct err as [e|]; [|by left]. right.
  destruct (Nat.lt_ge_cases (workqueue.NumRequeues k (c_queue w)) 5) as [Hlt|Hge].
  - left. exists e. split; [done|]. split; [done|]. by apply handleErr_retry.
  - right. exists e. split; [done|]. split; [done|]. by apply handleErr_drop.
Qed.

Section OtherKeys.
Import workqueue.

Lemma NumRequeues_Forget_ne k k' q :
  k' <> k -> NumRequeues k' (Forget k q) = NumRequeues k' q.
Proof. intros. unfold NumRequeues, Forget; cbn. by rewrite lookup_delete_ne. Qed.

Lemma NumRequeues_AddRateLimited_ne k k' q :
  k' <> k -> NumRequeues k' (AddRateLimited k q) = NumRequeues k' q.
Proof.
  intros. unfold AddRateLimited, AddAfter, When, NumRequeues; cbn.
  destruct (shuttingDown q); cbn; by rewrite lookup_insert_ne.
Qed.

Lemma NumRequeues_Add k k' q : NumRequeues k' (Add k q) = NumRequeues k' q.
Proof.
  unfold Add, NumRequeues. destruct (shuttingDown q); [done|].
  repeat case_decide; done.
Qed.

Lemma NumRequeues_ready k k' q : NumRequeues k' (ready k q) = NumRequeues k' q.
Proof. unfold ready. case_decide; [|done]. by rewrite NumRequeues_Add. Qed.

Lemma NumRequeues_Get k k' q q' :
  Get q = GetItem k q' -> NumRequeues k' q' = NumRequeues k' q.
Proof. intros H. unfold NumRequeues. by destruct (Get_keeps _ _ _ H) as (_ & _ & ->). Qed.

Lemma AddRateLimited_keeps k q :
  queue (AddRateLimited k q) = queue q /\ dirty (AddRateLimited k q) = dirty q
  /\ processing (AddRateLimited k q) = processing q
  /\ shuttingDown (AddRateLimited k q) = shuttingDown q
  /\ forall k', k' <> k -> k' ∈ waiting (AddRateLimited k q) <-> k' ∈ waiting q.
Proof.
  unfold AddRateLimited, AddAfter, When; cbn.
  destruct (shuttingDown q) eqn:E; cbn; split_and!; try done. set_solver.
Qed.
End OtherKeys.

(** X3.  [handleErr] for the key [k] always returns, and for every
    other key it leaves the retry counter and the timer as they were;
    it does not change the order of the queue, the dirty and
    processing marks, the file, the standard output or the cache. *)
Theorem handleErr_touches_one_key
    (err : option error) (k k' : string) (w : World) :
  k' <> k ->
  exists w',
    handleErr err k w = Ret tt w'
    /\ workqueue.NumRequeues k' (c_queue w') = workqueue.NumRequeues k' (c_queue w)
    /\ (k' ∈ workqueue.waiting (c_queue w') <-> k' ∈ workqueue.waiting (c_queue w))
    /\ workqueue.queue (c_queue w') = workqueue.queue (c_queue w)
    /\ workqueue.dirty (c_queue w') = workqueue.dirty (c_queue w)
    /\ workqueue.processing (c_queue w') = workqueue.processing (c_queue w)
    /\ c_f w' = c_f w /\ stdout w' = stdout w /\ c_indexer w' = c_indexer w.
Proof.
  intros Hne.
  destruct (handleErr_cases err k w)
    as [[_ ->]|[(e & _ & _ & ->)|(e & _ & _ & ->)]]; eexists; (split; [done|]); cbn.
  - rewrite NumRequeues_Forget_ne by done. done.
  - rewrite NumRequeues_AddRateLimited_ne by done.
    destruct (AddRateLimited_keeps k (c_queue w)) as (-> & -> & -> & _ & Hw).
    split_and!; try done. by apply Hw.
  - rewrite NumRequeues_Forget_ne by done. done.
Qed.

Lemma handleErr_touches_one_key_witness :
  exists w',
    handleErr (Some "timeout") "ns/foo"
      (Sample.five_failures Sample.holds_foo Sample.new_file) = Ret tt w'
    /\ workqueue.NumRequeues "ns/bar" (c_queue w') = 0.
Proof.
  destruct (handleErr_touches_one_key (Some "timeout") "ns/foo" "ns/bar"
              (Sample.five_failures Sample.holds_foo Sample.new_file))
    as (w' & H & Hn & _); [vm_compute; discriminate|].
  exists w'. split; [exact H|]. rewrite Hn. reflexivity.
Defined.

(** The counter of the key itself stays within the ceiling. *)
Lemma handleErr_counters_bounded err k w w' :
  handleErr err k w = Ret tt w' ->
  counters_bounded (c_queue w) -> counters_bounded (c_queue w').
Proof.
  intros H Hb k'.
  destruct (handleErr_cases err k w)
    as [[_ Hr]|[(e & _ & Hlt & Hr)|(e & _ & _ & Hr)]];
    rewrite Hr in H; injection H as <-; cbn.
  - destruct (decide (k' = k)) as [->|Hne].
    + rewrite NumRequeues_Forget. lia.
    + rewrite NumRequeues_Forget_ne by done. apply Hb.
  - destruct (decide (k' = k)) as [->|Hne].
    + rewrite NumRequeues_AddRateLimited. lia.
    + rewrite NumRequeues_AddRateLimited_ne by done. apply Hb.
  - destruct (decide (k' = k)) as [->|Hne].
    + rewrite NumRequeues_Forget. lia.
    + rewrite NumRequeues_Forget_ne by done. apply Hb.
Qed.

Ltac solve_outputs :=
  unfold outputs_extended; cbn; split_and!; try done; try reflexivity;
  try (by apply prefix_app_r);
  try (exists EmptyString; by rewrite string_append_nil_r).

Lemma handleErr_outputs err k w w' :
  handleErr err k w = Ret tt w' ->
  outputs_extended w w' /\ c_indexer w' = c_indexer w
  /\ c_f w' = c_f w /\ stdout w' = stdout w
  /\ workqueue.shuttingDown (c_queue w') = workqueue.shuttingDown (c_queue w)
  /\ workqueue.queue (c_queue w') = workqueue.queue (c_queue w)
  /\ workqueue.dirty (c_queue w') = workqueue.dirty (c_queue w).
Proof.
  intros H.
  destruct (handleErr_cases err k w)
    as [[_ Hr]|[(e & _ & Hlt & Hr)|(e & _ & _ & Hr)]];
    rewrite Hr in H; injection H as <-; cbn.
  - split; [solve_outputs|done].
  - destruct (AddRateLimited_keeps k (c_queue w)) as (-> & -> & _ & -> & _).
    split; [solve_outputs|done].
  - split; [solve_outputs|done].
Qed.

(** ** One pass of the worker, in general *)

(** A pass that returns either saw the shutdown, or took a key through
    [syncToStdout], [handleErr] and [Done]. *)
Lemma processNextItem_inv w b w' :
  processNextItem w = Ret b w' ->
  (b = false /\ w' = w /\ workqueue.Get (c_queue w) = workqueue.GetShutdown)
  \/ (b = true /\ exists k q r w1 w2,
        workqueue.Get (c_queue w) = workqueue.GetItem k q
        /\ syncToStdout k (with_queue (fun _ => q) w) = Ret r w1
        /\ handleErr r k w1 = Ret tt w2
        /\ w' = with_queue (workqueue.Done k) w2).
Proof.
  unfold processNextItem, bind at 1, queue_Get.
  destruct (workqueue.Get (c_queue w)) as [| |k q] eqn:HG; [done| |].
  - intros [= <- <-]. by left.
  - unfold bind at 1.
    destruct (syncToStdout k (with_queue (fun _ => q) w)) as [r w1| |] eqn:Hs;
      [|done|done].
    unfold bind at 1. destruct (handleErr_cases r k w1)
      as [[_ Hr]|[(e & _ & _ & Hr)|(e & _ & _ & Hr)]]; rewrite Hr;
      intros [= <- <-]; right; (split; [done|]);
      exists k, q, r, w1; eexists; done.
Qed.

(** A pass that gets a key ends in a panic or returns [true]. *)
Lemma processNextItem_with_item w k q :
  workqueue.Get (c_queue w) = workqueue.GetItem k q ->
  processNextItem w = Panic \/ exists w', processNextItem w = Ret true w'.
Proof.
  intros HG. rewrite (processNextItem_item w k q HG). unfold bind.
  destruct (syncToStdout_cases k (with_queue (fun _ => q) w))
    as [(item & ex & e & _ & Hs)|[(item & _ & Hs)|[(evt & out & _ & Hs)
       |(item & _ & _ & Hs)]]]; rewrite Hs; [| | |by left];
    match goal with
    | |- context [handleErr ?r k ?w1] =>
        destruct (handleErr_cases r k w1)
          as [[_ Hr]|[(e' & _ & _ & Hr)|(e' & _ & _ & Hr)]]
    end; rewrite Hr; right; eexists; reflexivity.
Qed.

(** X4.  [processNextItem] waits exactly when the queue is empty and
    not shut down; it returns [false] exactly when the queue is empty
    and shut down, and then nothing has changed.  With a key in the
    queue it does neither, shut down or not. *)
Theorem processNextItem_on_an_empty_queue (w : World) :
  (processNextItem w = Blocked
   <-> workqueue.queue (c_queue w) = []
       /\ workqueue.shuttingDown (c_queue w) = false)
  /\ ((exists w', processNextItem w = Ret false w')
      <-> workqueue.queue (c_queue w) = []
          /\ workqueue.shuttingDown (c_queue w) = true)
  /\ (forall w', processNextItem w = Ret false w' -> w' = w).
Proof.
  destruct (workqueue.Get (c_queue w)) as [| |k q] eqn:HG.
  - assert (processNextItem w = Blocked) as ->.
    { unfold processNextItem, bind, queue_Get. by rewrite HG. }
    unfold workqueue.Get in HG.
    destruct (workqueue.queue (c_queue w)); [|done].
    destruct (workqueue.shuttingDown (c_queue w)); [done|].
    split_and!; try done. split; [by intros [? ?]|by intros [? ?]].
  - assert (processNextItem w = Ret false w) as ->.
    { unfold processNextItem, bind, queue_Get. by rewrite HG. }
    unfold workqueue.Get in HG.
    destruct (workqueue.queue (c_queue w)); [|done].
    destruct (workqueue.shuttingDown (c_queue w)); [|done].
    split_and!; try done.
    + by split; [|intros [? ?]].
    + split; [done|]. intros _. by eexists.
    + by intros w' [= <-].
  - assert (workqueue.queue (c_queue w) <> []) as Hne.
    { unfold workqueue.Get in HG. destruct (workqueue.queue (c_queue w)); [|done].
      by destruct (workqueue.shuttingDown (c_queue w)). }
    destruct (processNextItem_with_item w k q HG) as [->|[w1 ->]];
      (split_and!; [split; [done|by intros [? ?]]
                   |split; [by intros [? ?]|by intros [? ?]]
                   |done]).
Qed.

(** What one pass keeps. *)
Lemma processNextItem_keeps w b w' :
  processNextItem w = Ret b w' ->
  c_indexer w' = c_indexer w
  /\ fault (c_f w') = fault (c_f w)
  /\ newEvent w' = newEvent w /\ err w' = err w
  /\ outputs_extended w w'
  /\ (counters_bounded (c_queue w) -> counters_bounded (c_queue w')).
Proof.
  intros H. destruct (processNextItem_inv w b w' H)
    as [(_ & -> & _)|(_ & k & q & r & w1 & w2 & HG & Hs & Hh & ->)].
  { split_and!; try done. apply outputs_extended_refl. }
  destruct (syncToStdout_touches_only_the_outputs _ _ _ _ Hs)
    as (Hq1 & Hi1 & _ & Hn1 & He1 & Hf1 & Ho1 & _).
  destruct (handleErr_outputs _ _ _ _ Hh) as (Ho2 & Hi2 & Hf2 & _).
  assert (newEvent w2 = newEvent w1 /\ err w2 = err w1) as [Hn2 He2].
  { destruct (handleErr_cases r k w1)
      as [[_ Hr]|[(e & _ & _ & Hr)|(e & _ & _ & Hr)]];
      rewrite Hr in Hh; by injection Hh as <-. }
  cbn. rewrite Hi2, Hi1, Hf2, Hf1, Hn2, Hn1, He2, He1. split_and!; try done.
  - apply (outputs_extended_trans _ w1); [done|].
    apply (outputs_extended_trans _ w2); [done|]. solve_outputs.
  - intros Hb k'. rewrite NumRequeues_Done.
    apply (handleErr_counters_bounded _ _ _ _ Hh).
    intros k''. rewrite Hq1. cbn. rewrite (NumRequeues_Get _ _ _ _ HG). apply Hb.
Qed.

(** ** The callbacks, in general *)

Lemma shuttingDown_Add k q :
  workqueue.shuttingDown (workqueue.Add k q) = workqueue.shuttingDown q.
Proof.
  unfold workqueue.Add. destruct (workqueue.shuttingDown q) eqn:E; [done|].
  repeat case_decide; done.
Qed.

Lemma Add_idempotent k q : workqueue.Add k (workqueue.Add k q) = workqueue.Add k q.
Proof.
  unfold workqueue.Add at 1. rewrite shuttingDown_Add.
  destruct (workqueue.shuttingDown q) eqn:Hq; [done|].
  rewrite decide_True; [done|]. rewrite dirty_Add by done. set_solver.
Qed.

Lemma callback_outcome t evt k e w :
  let w1 := recorded t evt k e w in
  let w' := if e is None then with_queue (workqueue.Add k) w1 else w1 in
  c_indexer w' = c_indexer w /\ c_f w' = c_f w /\ stdout w' = stdout w
  /\ klog w' = klog w /\ handled w' = handled w
  /\ (forall k', workqueue.NumRequeues k' (c_queue w')
                 = workqueue.NumRequeues k' (c_queue w))
  /\ (if e is None then with_queue (workqueue.Add k) (recorded t evt k e w') else
        recorded t evt k e w') = w'.
Proof.
  destruct e as [e|]; cbn; split_and!; try done.
  intros k'. by rewrite NumRequeues_Add.
  unfold recorded, with_queue, with_err, with_newEvent; cbn.
  by rewrite Add_idempotent.
Qed.


(** X6.  A notification delivered twice has the effect of one: after
    a callback has returned for an event, the same call changes nothing
    any more, and a delete that follows an add of the same object
    leaves the queue as the add left it. *)
Theorem callbacks_are_idempotent (evt newEvt : v1.Event) (w : World) :
  (exists w', Watch_AddFunc (ObjEvent evt) w = Ret tt w'
              /\ Watch_AddFunc (ObjEvent evt) w' = Ret tt w')
  /\ (exists w', Watch_UpdateFunc (ObjEvent evt) (ObjEvent newEvt) w = Ret tt w'
                 /\ Watch_UpdateFunc (ObjEvent evt) (ObjEvent newEvt) w' = Ret tt w')
  /\ (exists w', Watch_DeleteFunc (ObjEvent evt) w = Ret tt w'
                 /\ Watch_DeleteFunc (ObjEvent evt) w' = Ret tt w')
  /\ (exists w1 w2, Watch_AddFunc (ObjEvent evt) w = Ret tt w1
                    /\ Watch_DeleteFunc (ObjEvent evt) w1 = Ret tt w2
                    /\ c_queue w2 = c_queue w1).
Proof.
  unfold Watch_AddFunc, Watch_UpdateFunc, Watch_DeleteFunc.
  assert (cache.DeletionHandlingMetaNamespaceKeyFunc (ObjEvent evt)
          = (key_of evt, None)) as HD by apply MetaNamespaceKeyFunc_event.
  split_and!.
  - eexists. rewrite !AddFunc_event, MetaNamespaceKeyFunc_event.
    split; [reflexivity|]. f_equal.
    apply (callback_outcome CreateEvent evt (key_of evt) None w).
  - rewrite UpdateFunc_event. destruct (update_filter evt newEvt) eqn:Hf.
    + eexists. rewrite MetaNamespaceKeyFunc_event. split; [reflexivity|].
      rewrite UpdateFunc_event, Hf, MetaNamespaceKeyFunc_event. f_equal.
      apply (callback_outcome UpdateEvent newEvt (key_of evt) None w).
    + exists w. split; [done|]. by rewrite UpdateFunc_event, Hf.
  - eexists. rewrite !DeleteFunc_event, HD.
    split; [reflexivity|]. f_equal.
    apply (callback_outcome DeleteEvent evt (key_of evt) None w).
  - do 2 eexists. rewrite AddFunc_event, DeleteFunc_event, HD,
      MetaNamespaceKeyFunc_event.
    split; [reflexivity|]. split; [reflexivity|]. cbn. apply Add_idempotent.
Qed.

(** What a callback keeps. *)
Lemma callback_keeps (m : M unit) (w w' : World) :
  (exists o, m = Watch_AddFunc o) \/ (exists old new, m = Watch_UpdateFunc old new)
  \/ (exists o, m = Watch_DeleteFunc o) ->
  m w = Ret tt w' ->
  c_indexer w' = c_indexer w /\ c_f w' = c_f w /\ stdout w' = stdout w
  /\ klog w' = klog w /\ handled w' = handled w
  /\ (forall k, workqueue.NumRequeues k (c_queue w')
                = workqueue.NumRequeues k (c_queue w)).
Proof.
  assert (forall evt, cache.DeletionHandlingMetaNamespaceKeyFunc (ObjEvent evt)
                      = (key_of evt, None)) as HD.
  { intros evt. apply MetaNamespaceKeyFunc_event. }
  unfold Watch_AddFunc, Watch_UpdateFunc, Watch_DeleteFunc.
  intros [[o ->]|[(old & new & ->)|[o ->]]].
  - destruct o as [evt| | |]; try done.
    rewrite AddFunc_event, MetaNamespaceKeyFunc_event. intros [= <-].
    pose proof (callback_outcome CreateEvent evt (key_of evt) None w). naive_solver.
  - destruct old as [oldEvt| | |]; try done.
    destruct new as [newEvt| | |]; try done.
    rewrite UpdateFunc_event, MetaNamespaceKeyFunc_event.
    destruct (update_filter oldEvt newEvt); intros [= <-]; [|done].
    pose proof (callback_outcome UpdateEvent newEvt (key_of oldEvt) None w).
    naive_solver.
  - destruct o as [evt| | |]; try done.
    rewrite DeleteFunc_event, HD. intros [= <-].
    pose proof (callback_outcome DeleteEvent evt (key_of evt) None w). naive_solver.
Qed.

(** ** The running controller *)

Lemma perform_keeps ev w w' :
  perform ev w = Ret tt w' ->
  outputs_extended w w'
  /\ (counters_bounded (c_queue w) -> counters_bounded (c_queue w')).
Proof.
  destruct ev as [o|old new|o|i| |item|]; cbn [perform].
  - intros H. destruct (callback_keeps _ w w' (or_introl (ex_intro _ o eq_refl)) H)
      as (_ & Hf & Ho & Hk & Hh & Hn).
    split; [|intros Hb k; rewrite Hn; apply Hb].
    unfold outputs_extended. rewrite Hf, Ho, Hk, Hh. apply outputs_extended_refl.
  - intros H.
    destruct (callback_keeps _ w w'
                (or_intror (or_introl (ex_intro _ old (ex_intro _ new eq_refl)))) H)
      as (_ & Hf & Ho & Hk & Hh & Hn).
    split; [|intros Hb k; rewrite Hn; apply Hb].
    unfold outputs_extended. rewrite Hf, Ho, Hk, Hh. apply outputs_extended_refl.
  - intros H.
    destruct (callback_keeps _ w w'
                (or_intror (or_intror (ex_intro _ o eq_refl))) H)
      as (_ & Hf & Ho & Hk & Hh & Hn).
    split; [|intros Hb k; rewrite Hn; apply Hb].
    unfold outputs_extended. rewrite Hf, Ho, Hk, Hh. apply outputs_extended_refl.
  - intros [= <-]. split; [solve_outputs|done].
  - destruct (processNextItem w) as [b w1| |] eqn:Hp; [| |done].
    + intros [= <-]. destruct (processNextItem_keeps _ _ _ Hp) as (_ & _ & _ & _ & ? & ?).
      done.
    + intros [= <-]. split; [apply outputs_extended_refl|done].
  - intros [= <-]. split; [solve_outputs|].
    intros Hb k. cbn. rewrite NumRequeues_ready. apply Hb.
  - intros [= <-]. split; [solve_outputs|]. intros Hb k. apply Hb.
Qed.

Lemma perform_all_keeps evs : forall w w',
  perform_all evs w = Ret tt w' ->
  outputs_extended w w'
  /\ (counters_bounded (c_queue w) -> counters_bounded (c_queue w')).
Proof.
  induction evs as [|ev evs IH]; intros w w'; cbn [perform_all].
  - intros [= <-]. split; [apply outputs_extended_refl|done].
  - unfold bind. destruct (perform ev w) as [[] w1| |] eqn:Hp; [|done|done].
    intros H. destruct (perform_keeps _ _ _ Hp) as [Ho Hb].
    destruct (IH _ _ H) as [Ho' Hb'].
    split; [by apply (outputs_extended_trans _ w1)|auto].
Qed.

(** X7.  From a new queue, whatever the informer delivers, however
    the cache changes, whenever the worker runs, timers fire and the
    controller stops: as long as no call panics, no key has more than 5
    requeues on record. *)
Theorem retry_counters_never_exceed_the_ceiling
    (evs : list event) (w w' : World) (key : string) :
  c_queue w = workqueue.NewRateLimitingQueue ->
  perform_all evs w = Ret tt w' ->
  workqueue.NumRequeues key (c_queue w') <= 5.
Proof.
  intros Hq H. apply (perform_all_keeps _ _ _ H).
  intros k. rewrite Hq. unfold workqueue.NumRequeues; cbn.
  rewrite lookup_empty. cbn. lia.
Qed.

Lemma day_ends_in_the_evening :
  perform_all Scenario.day Scenario.morning = Ret tt Scenario.evening.
Proof. vm_compute. reflexivity. Qed.

Lemma retry_counters_never_exceed_the_ceiling_witness :
  workqueue.NumRequeues "ns/foo" (c_queue Scenario.evening) <= 5.
Proof.
  apply (retry_counters_never_exceed_the_ceiling
           Scenario.day Scenario.morning Scenario.evening "ns/foo");
    [reflexivity | exact day_ends_in_the_evening].
Defined.





(** ** After the shutdown *)






(** ** From a notification to the sink *)

(** A pending key whose sync succeeds is delivered once. *)
Lemma run_pending_synced k F w w1 fuel :
  c_queue w = pending k F ->
  syncToStdout k (with_queue (fun _ => workqueue.mkQueue [] ∅ {[k]} false F ∅) w)
  = Ret None w1 ->
  1 <= fuel ->
  run fuel w = Ret [k] (with_queue (fun _ => idle (delete k F)) w1).
Proof.
  intros Hq Hs Hfuel. destruct fuel as [|fuel]; [lia|]. cbn [run].
  assert (workqueue.Get (c_queue w)
          = workqueue.GetItem k (workqueue.mkQueue [] ∅ {[k]} false F ∅)) as HG.
  { rewrite Hq. apply Get_pending. }
  rewrite HG, (processNextItem_sync_nil w k _ HG w1 Hs).
  destruct (syncToStdout_touches_only_the_outputs _ _ _ _ Hs) as (Hq1 & _).
  cbn in Hq1.
  assert (with_queue (fun q1 => workqueue.Done k (workqueue.Forget k q1)) w1
          = with_queue (fun _ => idle (delete k F)) w1) as ->.
  { unfold with_queue. by rewrite Hq1, Done_Forget. }
  by rewrite (run_idle _ _ (delete k F)).
Qed.

(** X10.  An add notification on an idle queue, followed by the
    worker: the key is delivered once, the file receives exactly one
    line, built from the object the cache holds under the key and not
    from the object of the notification, the line is echoed on the
    standard output, and the queue is idle again with no failure on
    record for the key. *)
Theorem added_object_is_written_once
    (evt cached : v1.Event) (w : World) (F : gmap string nat) (fuel : nat) :
  c_queue w = idle F ->
  c_indexer w (key_of evt) = (Some (ObjEvent cached), true, None) ->
  fault (c_f w) = None ->
  1 <= fuel ->
  exists w1,
    Watch_AddFunc (ObjEvent evt) w = Ret tt w1
    /\ run fuel w1
       = Ret [key_of evt]
           (with_queue (fun _ => idle (delete (key_of evt) F))
              (with_f (mkFile (contents (c_f w) +:+ Sprintf_msg cached) None)
                 (with_stdout (stdout w ++ [Fmt (Sprintf_msg cached) []]) w1))).
Proof.
  intros Hq Hi Hf Hfuel. unfold Watch_AddFunc.
  rewrite AddFunc_event, MetaNamespaceKeyFunc_event. eexists. split; [reflexivity|].
  erewrite (run_pending_synced (key_of evt) F); [| |by apply syncToStdout_written|done].
  - done.
  - cbn. rewrite Hq. apply Add_idle.
Qed.

Lemma added_object_is_written_once_witness :
  exists w1,
    Watch_AddFunc (ObjEvent Sample.foo)
      (Sample.start Scenario.holds_foo' Sample.new_file) = Ret tt w1
    /\ run 1 w1
       = Ret [key_of Sample.foo]
           (with_queue (fun _ => idle (delete (key_of Sample.foo) ∅))
              (with_f
                 (mkFile
                    (contents (c_f (Sample.start Scenario.holds_foo' Sample.new_file))
                     +:+ Sprintf_msg Sample.foo') None)
                 (with_stdout
                    (stdout (Sample.start Scenario.holds_foo' Sample.new_file)
                     ++ [Fmt (Sprintf_msg Sample.foo') []]) w1))).
Proof.
  apply (added_object_is_written_once Sample.foo Sample.foo'
           (Sample.start Scenario.holds_foo' Sample.new_file) ∅ 1);
    [reflexivity | reflexivity | reflexivity | lia].
Defined.


(** X11.  A delete notification for an object the cache no longer
    holds, followed by the worker: the key is delivered once, the
    "does not exist anymore" message is printed for it, the file is
    not written and the queue is idle again. *)
Theorem deleted_object_is_reported_once
    (evt : v1.Event) (item : option obj) (w : World) (F : gmap string nat)
    (fuel : nat) :
  c_queue w = idle F ->
  c_indexer w (key_of evt) = (item, false, None) ->
  1 <= fuel ->
  exists w1,
    Watch_DeleteFunc (ObjEvent evt) w = Ret tt w1
    /\ run fuel w1
       = Ret [key_of evt]
           (with_queue (fun _ => idle (delete (key_of evt) F))
              (with_stdout
                 (stdout w
                  ++ [Fmt ("Pod %s does not exist anymore" +:+ LF) [key_of evt]])
                 w1))
    /\ c_f w1 = c_f w.
Proof.
  intros Hq Hi Hfuel. unfold Watch_DeleteFunc. rewrite DeleteFunc_event.
  change (cache.DeletionHandlingMetaNamespaceKeyFunc (ObjEvent evt))
    with (cache.MetaNamespaceKeyFunc (ObjEvent evt)).
  rewrite MetaNamespaceKeyFunc_event. eexists. split; [reflexivity|].
  split; [|done].
  erewrite (run_pending_synced (key_of evt) F);
    [| |by apply (syncToStdout_absent _ _ item)|done].
  - done.
  - cbn. rewrite Hq. apply Add_idle.
Qed.

Lemma deleted_object_is_reported_once_witness :
  exists w1,
    Watch_DeleteFunc (ObjEvent Sample.foo)
      (Sample.start Sample.empty_cache Sample.new_file) = Ret tt w1
    /\ run 1 w1
       = Ret [key_of Sample.foo]
           (with_queue (fun _ => idle (delete (key_of Sample.foo) ∅))
              (with_stdout
                 (stdout (Sample.start Sample.empty_cache Sample.new_file)
                  ++ [Fmt ("Pod %s does not exist anymore" +:+ LF)
                        [key_of Sample.foo]])
                 w1))
    /\ c_f w1 = c_f (Sample.start Sample.empty_cache Sample.new_file).
Proof.
  apply (deleted_object_is_reported_once Sample.foo None
           (Sample.start Sample.empty_cache Sample.new_file) ∅ 1);
    [reflexivity | reflexivity | lia].
Defined.


(** ** The queue between two calls *)

Section AtRest.
Import workqueue.

Lemma Add_at_rest k q : queue_at_rest q -> queue_at_rest (Add k q).
Proof.
  intros (Hp & Hnd & Hd). unfold Add. destruct (shuttingDown q); [done|].
  case_decide as Hk; [done|]. cbn. rewrite Hp.
  rewrite decide_False by set_solver. unfold queue_at_rest; cbn.
  split; [done|]. split.
  - apply NoDup_app. split; [done|]. split; [|apply NoDup_singleton].
    intros x Hx Hx'. apply list_elem_of_singleton in Hx' as ->. by apply Hk, Hd.
  - intros key [Hin|Hin]%elem_of_app; [|set_solver].
    specialize (Hd key Hin). set_solver.
Qed.

Lemma ready_at_rest k q : queue_at_rest q -> queue_at_rest (ready k q).
Proof. intros H. unfold ready. case_decide; [|done]. by apply Add_at_rest. Qed.

Lemma pass_at_rest k q q1 q2 :
  queue_at_rest q -> Get q = GetItem k q1 ->
  queue q2 = queue q1 -> dirty q2 = dirty q1 -> processing q2 = processing q1 ->
  queue_at_rest (Done k q2).
Proof.
  intros (Hp & Hnd & Hd) HG Hq2 Hd2 Hp2.
  rewrite (Get_Done_not_requeued k q q1 (fun _ => q2) HG) by done.
  unfold Get in HG. destruct (queue q) as [|x rest] eqn:Hq;
    [by destruct (shuttingDown q)|].
  injection HG as -> <-. cbn in *. unfold queue_at_rest; cbn.
  rewrite Hp2, Hq2, Hd2, Hp. apply NoDup_cons in Hnd as [Hk Hnd].
  split; [set_solver|]. split; [done|].
  intros key Hin. assert (key <> k) by (by intros ->).
  specialize (Hd key). set_solver.
Qed.
End AtRest.

Lemma handleErr_keeps_queue err k w w' :
  handleErr err k w = Ret tt w' ->
  workqueue.queue (c_queue w') = workqueue.queue (c_queue w)
  /\ workqueue.dirty (c_queue w') = workqueue.dirty (c_queue w)
  /\ workqueue.processing (c_queue w') = workqueue.processing (c_queue w).
Proof.
  intros H.
  destruct (handleErr_cases err k w)
    as [[_ Hr]|[(e & _ & Hlt & Hr)|(e & _ & _ & Hr)]];
    rewrite Hr in H; injection H as <-; cbn; [done| |done].
  by destruct (AddRateLimited_keeps k (c_queue w)) as (-> & -> & -> & _).
Qed.

Lemma perform_at_rest ev w w' :
  perform ev w = Ret tt w' ->
  queue_at_rest (c_queue w) -> queue_at_rest (c_queue w').
Proof.
  assert (forall evt, cache.DeletionHandlingMetaNamespaceKeyFunc (ObjEvent evt)
                      = (key_of evt, None)) as HD.
  { intros evt. apply MetaNamespaceKeyFunc_event. }
  destruct ev as [o|old new|o|i| |item|]; cbn [perform];
    unfold Watch_AddFunc, Watch_UpdateFunc, Watch_DeleteFunc.
  - destruct o as [evt| | |]; try done.
    rewrite AddFunc_event, MetaNamespaceKeyFunc_event. intros [= <-]. cbn.
    apply Add_at_rest.
  - destruct old as [oldEvt| | |]; try done.
    destruct new as [newEvt| | |]; try done.
    rewrite UpdateFunc_event, MetaNamespaceKeyFunc_event.
    destruct (update_filter oldEvt newEvt); intros [= <-]; [|done]. cbn.
    apply Add_at_rest.
  - destruct o as [evt| | |]; try done.
    rewrite DeleteFunc_event, HD. intros [= <-]. cbn. apply Add_at_rest.
  - by intros [= <-].
  - destruct (processNextItem w) as [b w1| |] eqn:Hp; [| |done];
      intros [= <-]; [|done]. intros Hrest.
    destruct (processNextItem_inv _ _ _ Hp)
      as [(_ & -> & _)|(_ & k & q & r & w1' & w2 & HG & Hs & Hh & ->)]; [done|].
    destruct (syncToStdout_touches_only_the_outputs _ _ _ _ Hs) as (Hq1 & _).
    destruct (handleErr_keeps_queue _ _ _ _ Hh) as (Hq2 & Hd2 & Hp2).
    cbn in Hq1. cbn.
    apply (pass_at_rest k (c_queue w) q); try done; congruence.
  - intros [= <-]. cbn. apply ready_at_rest.
  - by intros [= <-].
Qed.

(** X12.  From a new queue and over any sequence of calls that do
    not panic, the queue holds no key twice, every queued key is marked
    dirty, and between two calls no key is left marked as being
    processed: [Done] has run for every key that [Get] handed out. *)
Theorem no_key_is_queued_twice (evs : list event) (w w' : World) :
  c_queue w = workqueue.NewRateLimitingQueue ->
  perform_all evs w = Ret tt w' ->
  NoDup (workqueue.queue (c_queue w'))
  /\ workqueue.processing (c_queue w') = ∅
  /\ forall key, key ∈ workqueue.queue (c_queue w') ->
                 key ∈ workqueue.dirty (c_queue w').
Proof.
  intros Hq H.
  assert (queue_at_rest (c_queue w)) as Hrest.
  { rewrite Hq. unfold queue_at_rest; cbn. split; [done|].
    split; [apply NoDup_nil_2|]. by intros key ?%elem_of_nil. }
  clear Hq. revert w w' H Hrest.
  induction evs as [|ev evs IH]; intros w w'; cbn [perform_all].
  - intros [= <-] (? & ? & ?). done.
  - unfold bind. destruct (perform ev w) as [[] w1| |] eqn:Hp; [|done|done].
    intros H Hrest. apply (IH w1 w' H). by apply (perform_at_rest ev w).
Qed.

Lemma no_key_is_queued_twice_witness :
  NoDup (workqueue.queue (c_queue Scenario.evening))
  /\ workqueue.processing (c_queue Scenario.evening) = ∅
  /\ forall key, key ∈ workqueue.queue (c_queue Scenario.evening) ->
                 key ∈ workqueue.dirty (c_queue Scenario.evening).
Proof.
  apply (no_key_is_queued_twice Scenario.day Scenario.morning Scenario.evening);
    [reflexivity | exact day_ends_in_the_evening].
Defined.

